(** * The tBTC relay's block forwarder, embedded and verified

    Sources embedded here:
    - [relay/pkg/btc] : the [Header] struct, the [Digest] array type and
      the method [Header.Equals];
    - [relay/pkg/block/forwarder.go] : [headersEqual], [copyHeaders],
      [findBestBlock], [pullingLoop], [pushingLoop] and [RunForwarder].

    Go data is modelled as the program has it.  A [*btc.Header] is a
    pointer into a store of header structs, a [[]byte] is a reference to
    a byte buffer of that store, an [int64] is a [Z] with its wrap-around
    written out, a buffered channel is a bounded FIFO.  The collaborators
    behind the interfaces [btc.Handle] and [chain.Handle], the context and
    the peer goroutines are oracles over an abstract world. *)

From Stdlib Require Import ZArith Lia Strings.Byte.
From Stdlib Require DecimalString DecimalZ.
From stdpp Require Import base option list strings.

Open Scope Z_scope.

(** ** Bytes, digests and int64 *)

Abbreviation byte := Byte.byte.

#[global] Instance byte_eq_dec : EqDecision byte := Byte.byte_eq_dec.

(** [type Digest [32]byte]: a Go array, compared with [==] by contents. *)
Definition Digest := list byte.

Definition zeroDigest : Digest := replicate 32 Byte.x00.

Definition min_int64 : Z := - 2 ^ 63.
Definition max_int64 : Z := 2 ^ 63 - 1.

(** Two's complement wrap-around of a 64-bit signed integer. *)
Definition wrap64 (z : Z) : Z := (z + 2 ^ 63) mod 2 ^ 64 - 2 ^ 63.

Definition add64 (a b : Z) : Z := wrap64 (a + b).

(** [bytes.Compare]: lexicographic comparison, 0 when equal, -1 when the
    first argument is smaller, +1 when it is greater. *)
Fixpoint bytes_Compare (a b : list byte) : Z :=
  match a, b with
  | [], [] => 0
  | [], _ :: _ => -1
  | _ :: _, [] => 1
  | x :: a', y :: b' =>
      match N.compare (Byte.to_N x) (Byte.to_N y) with
      | Eq => bytes_Compare a' b'
      | Lt => -1
      | Gt => 1
      end
  end.

(** ** The store: header structs and byte buffers *)

(** A [[]byte] value: [None] is the nil slice, [Some b] refers to buffer
    [b] of the store, whose contents are the slice's elements. *)
Definition slice := option nat.

(** [type Header struct] of package btc. *)
Record Header := mkHeader {
  Hash : Digest;
  Height : Z;
  PrevHash : Digest;
  MerkleRoot : Digest;
  Raw : slice
}.

(** A [*btc.Header]: [None] is nil. *)
Definition hptr := option nat.

Record Store := mkStore {
  hdrs : list Header;
  bufs : list (list byte)
}.

(** [&btc.Header{}]: every field has its zero value. *)
Definition zeroHeader : Header :=
  {| Hash := zeroDigest; Height := 0; PrevHash := zeroDigest;
     MerkleRoot := zeroDigest; Raw := None |}.

(** Dereference; [None] is the nil-pointer panic. *)
Definition deref (s : Store) (p : hptr) : option Header :=
  l ← p; hdrs s !! l.

(** The elements of a slice; the nil slice has none. *)
Definition slice_bytes (s : Store) (sl : slice) : option (list byte) :=
  match sl with
  | None => Some []
  | Some b => bufs s !! b
  end.

Definition set_header (s : Store) (l : nat) (h : Header) : Store :=
  {| hdrs := <[l := h]> (hdrs s); bufs := bufs s |}.

Definition set_buf (s : Store) (b : nat) (bs : list byte) : Store :=
  {| hdrs := hdrs s; bufs := <[b := bs]> (bufs s) |}.

(** Allocation of a header struct: the new address is the first unused. *)
Definition new_header (s : Store) (h : Header) : nat * Store :=
  (length (hdrs s), {| hdrs := hdrs s ++ [h]; bufs := bufs s |}).

(** [make([]byte, n)]: a new zeroed buffer. *)
Definition make_bytes (s : Store) (n : nat) : nat * Store :=
  (length (bufs s),
   {| hdrs := hdrs s; bufs := bufs s ++ [replicate n Byte.x00] |}).

(** The builtin [copy(dst, src)]: the first [min (len dst) (len src)]
    elements of [src] overwrite those of [dst]. *)
Definition copy_bytes (s : Store) (dst src : slice) : option Store :=
  d ← slice_bytes s dst;
  e ← slice_bytes s src;
  match dst with
  | None => Some s
  | Some b =>
      let n := Nat.min (length d) (length e) in
      Some (set_buf s b (take n e ++ drop n d))
  end.

Definition with_Raw (h : Header) (sl : slice) : Header :=
  {| Hash := Hash h; Height := Height h; PrevHash := PrevHash h;
     MerkleRoot := MerkleRoot h; Raw := sl |}.

(** ** Header equality and copy *)

(** forwarder.go, [headersEqual].  The conjunction short-circuits, so the
    byte slices are read only when the first four fields agree. *)
Definition headersEqual (s : Store) (first second : hptr) : option bool :=
  f ← deref s first;
  g ← deref s second;
  if bool_decide (Hash f = Hash g)
     && bool_decide (Height f = Height g)
     && bool_decide (PrevHash f = PrevHash g)
     && bool_decide (MerkleRoot f = MerkleRoot g)
  then
    a ← slice_bytes s (Raw f);
    b ← slice_bytes s (Raw g);
    Some (bool_decide (bytes_Compare a b = 0))
  else Some false.

(** package btc, method [Equals] of [*Header]. *)
Definition Equals (s : Store) (header other : hptr) : option bool :=
  match other with
  | None => Some false
  | Some _ =>
      h ← deref s header;
      o ← deref s other;
      Some (bool_decide (Hash h = Hash o)
            && bool_decide (Height h = Height o)
            && bool_decide (PrevHash h = PrevHash o)
            && bool_decide (MerkleRoot h = MerkleRoot o))
  end.

(** forwarder.go, [copyHeaders]:
    [*dest = *src], then [dest.Raw = make([]byte, len(src.Raw))], then
    [copy(dest.Raw, src.Raw)].  Every read of [src] goes through the
    store, as the statements do, so that [dest == src] is covered. *)
Definition copyHeaders (s : Store) (dest src : hptr) : option Store :=
  d ← dest;
  v ← deref s src;
  _ ← deref s dest;
  let s1 := set_header s d v in
  v1 ← deref s1 src;
  r1 ← slice_bytes s1 (Raw v1);
  let '(b, s2) := make_bytes s1 (length r1) in
  d2 ← deref s2 dest;
  let s3 := set_header s2 d (with_Raw d2 (Some b)) in
  d3 ← deref s3 dest;
  v3 ← deref s3 src;
  copy_bytes s3 (Raw d3) (Raw v3).

(** ** Channels

    A buffered Go channel: capacity, buffered elements in FIFO order, and
    whether it has been closed.  Every channel of the forwarder is made
    with a capacity of at least one, so a send succeeds exactly when the
    buffer has room. *)
Record chan (A : Type) := mkChan {
  ch_cap : nat;
  ch_buf : list A;
  ch_closed : bool
}.
Arguments mkChan {A} _ _ _.
Arguments ch_cap {A} _.
Arguments ch_buf {A} _.
Arguments ch_closed {A} _.

(** [make(chan A, n)] *)
Definition make_chan {A : Type} (n : nat) : chan A := mkChan n [] false.

Inductive send_result (A : Type) :=
| Sent (c : chan A)
| WouldBlock
| SendOnClosed.
Arguments Sent {A} _.
Arguments WouldBlock {A}.
Arguments SendOnClosed {A}.

(** One attempt of the send statement [c <- v]. *)
Definition chan_send {A : Type} (c : chan A) (v : A) : send_result A :=
  if ch_closed c then SendOnClosed
  else if (length (ch_buf c) <? ch_cap c)%nat
       then Sent (mkChan (ch_cap c) (ch_buf c ++ [v]) false)
       else WouldBlock.

(** Is a receive [<-c] ready: an element is buffered or [c] is closed. *)
Definition chan_ready {A : Type} (c : chan A) : bool :=
  match ch_buf c with
  | [] => ch_closed c
  | _ :: _ => true
  end.

(** The channel after a receive that was ready: the oldest element is
    taken; a closed and drained channel stays as it is. *)
Definition chan_recv {A : Type} (c : chan A) : chan A :=
  mkChan (ch_cap c) (tail (ch_buf c)) (ch_closed c).

(** ** Errors, events, the forwarder and the machine *)

(** Go [error] values: those returned by the collaborators, and those
    built by [fmt.Errorf] from a format, an optional height and a cause. *)
Inductive error :=
| ExternalError (msg : string)
| Errorf (format : string) (cause : error)
| ErrorfAt (format : string) (height : Z) (cause : error).

(** The four formats of forwarder.go, in source order. *)
Definition fmt_find_best_block : string :=
  "failure while trying to find best block for pulling loop: [%v]".
Definition fmt_block_count : string := "could not get block count [%v]".
Definition fmt_header_by_height : string :=
  "could not get header by height at %d: [%v]".
Definition fmt_push_headers : string := "could not push headers: [%v]".

(** A Go result pair [(v, err)]. *)
Inductive result (A : Type) :=
| Ok (a : A)
| Err (e : error).
Arguments Ok {A} _.
Arguments Err {A} _.

(** The constants of forwarder.go; durations in seconds. *)
Definition headersQueueSize : nat := 50.
Definition headersBatchSize : nat := 5.
Definition headerTimeout : Z := 1.
Definition difficultyEpochDuration : Z := 2016.
Definition forwarderPushingSleepTime : Z := 45.
Definition forwarderPullingSleepTime : Z := 60.

(** The cases of the two kinds of [select] statement of the loops. *)
Inductive SelCase := SelCtxDone | SelQuit | SelTimer.

(** What a loop does that another party can observe.  The trace of these
    events is a history variable: no statement of the program reads it. *)
Inductive Event :=
| EvCancelled (c : SelCase)               (* the select at the top of a loop took [c] *)
| EvEnqueue (p : hptr) (h : option Header) (* [f.headersQueue <- p]; [h] is [*p] then *)
| EvReport (e : error)                    (* [f.errChan <- e] *)
| EvSleep (d : Z)                         (* the sleeping select was entered *)
| EvWake (c : SelCase)                    (* the sleeping select took [c] *)
| EvPush (hs : list hptr).                (* [pushHeadersToHostChain] was called *)

(** [type Forwarder struct]; the two handles are the interface instances
    below. *)
Record Forwarder := mkForwarder {
  processedHeaders : Z;
  headersQueue : chan hptr;
  errChan : chan error;
  quit : chan bool
}.

Section Machine.
Context {W : Type}.

Record Machine := mkMachine {
  store : Store;
  fwd : Forwarder;
  world : W;
  trace : list Event
}.

(** How a computation ends: it returns, it panics (a nil dereference or
    a send on a closed channel), or it is still running, blocked or
    looping, when the fuel is spent. *)
Inductive Res (A : Type) :=
| Done (a : A) (m : Machine)
| Panic (m : Machine)
| Running (m : Machine).

Definition M (A : Type) : Type := Machine -> Res A.

Definition ret {A : Type} (a : A) : M A := fun m => Done A a m.

Definition bind {A B : Type} (c : M A) (k : A -> M B) : M B :=
  fun m =>
    match c m with
    | Done _ a m' => k a m'
    | Panic _ m' => Panic B m'
    | Running _ m' => Running B m'
    end.

Definition panic {A : Type} : M A := fun m => Panic A m.

Definition final {A : Type} (r : Res A) : Machine :=
  match r with
  | Done _ _ m | Panic _ m | Running _ m => m
  end.
End Machine.
Arguments Machine : clear implicits.
Arguments Res : clear implicits.
Arguments M : clear implicits.
Arguments Done {W A} _ _.
Arguments Panic {W A} _.
Arguments Running {W A} _.

Notation "'let!' x ':=' c 'in' k" := (bind c (fun x => k))
  (at level 10, x pattern, c at level 100, k at level 200).

(** [v, err := c; if err != nil { return ..., err }]: an error ends the
    function with that error, a value goes on. *)
Definition try_bind {W A B : Type} (c : M W (result A))
    (k : A -> M W (result B)) : M W (result B) :=
  let! r := c in
  match r with
  | Ok a => k a
  | Err e => ret (Err e)
  end.

Notation "'let?' x ':=' c 'in' k" := (try_bind c (fun x => k))
  (at level 10, x pattern, c at level 100, k at level 200).

(** ** The collaborators *)

(** [btc.Handle].  A call may allocate in the store, and may reuse what it
    allocated before. *)
Class BtcHandle (W : Type) := {
  GetHeaderByHeight : Z -> Store -> W -> result hptr * Store * W;
  GetHeaderByDigest : Digest -> Store -> W -> result hptr * Store * W;
  GetBlockCount : W -> result Z * W
}.

(** [chain.Handle], of which the forwarder calls one method. *)
Class ChainHandle (W : Type) := {
  GetBestKnownDigest : W -> result Digest * W
}.

(** The Go runtime and the other parties, seen from one goroutine:
    whether [ctx.Done()] is closed, whether the timer of [time.After d]
    has fired, which of [n] ready cases a select takes, and what the other
    goroutines and the outside do to the shared channels before this
    goroutine's next channel operation. *)
Class Runtime (W : Type) := {
  ctxDone : W -> bool;
  timerFired : Z -> W -> bool;
  pick : nat -> W -> nat * W;
  interfere : Forwarder -> W -> Forwarder * W
}.

(** The two methods of [Forwarder] that forwarder.go calls and that live
    in other files of the package. *)
Class Helpers (W : Type) := {
  pullHeadersFromQueue : nat -> M W (list hptr);
  pushHeadersToHostChain : nat -> list hptr -> M W (option error)
}.

(** ** The forwarder *)

Section Forwarder.
Context {W : Type}.
Context {btcChain : BtcHandle W} {hostChain : ChainHandle W}.
Context {rt : Runtime W} {helpers : Helpers W}.

Definition log (e : Event) (m : Machine W) : Machine W :=
  mkMachine (store m) (fwd m) (world m) (trace m ++ [e]).

(** The other parties act on the channels. *)
Definition yield (m : Machine W) : Machine W :=
  let '(f, w) := interfere (fwd m) (world m) in
  mkMachine (store m) f w (trace m).

(** *** Calls of the handles *)

Definition callGetHeaderByHeight (height : Z) : M W (result hptr) :=
  fun m =>
    let '(r, s, w) := GetHeaderByHeight height (store m) (world m) in
    Done r (mkMachine s (fwd m) w (trace m)).

Definition callGetHeaderByDigest (digest : Digest) : M W (result hptr) :=
  fun m =>
    let '(r, s, w) := GetHeaderByDigest digest (store m) (world m) in
    Done r (mkMachine s (fwd m) w (trace m)).

Definition callGetBlockCount : M W (result Z) :=
  fun m =>
    let '(r, w) := GetBlockCount (world m) in
    Done r (mkMachine (store m) (fwd m) w (trace m)).

Definition callGetBestKnownDigest : M W (result Digest) :=
  fun m =>
    let '(r, w) := GetBestKnownDigest (world m) in
    Done r (mkMachine (store m) (fwd m) w (trace m)).

(** *** Store operations *)

(** [*p], for the field reads [p.Height], [p.PrevHash], ... *)
Definition load (p : hptr) : M W Header :=
  fun m =>
    match deref (store m) p with
    | Some h => Done h m
    | None => Panic m
    end.

Definition headersEqualM (first second : hptr) : M W bool :=
  fun m =>
    match headersEqual (store m) first second with
    | Some b => Done b m
    | None => Panic m
    end.

Definition copyHeadersM (dest src : hptr) : M W unit :=
  fun m =>
    match copyHeaders (store m) dest src with
    | Some s => Done tt (mkMachine s (fwd m) (world m) (trace m))
    | None => Panic m
    end.

(** [&btc.Header{}] *)
Definition newZeroHeader : M W hptr :=
  fun m =>
    let '(l, s) := new_header (store m) zeroHeader in
    Done (Some l) (mkMachine s (fwd m) (world m) (trace m)).

(** *** Channel operations *)

(** A blocking operation: the other parties act, then the operation is
    attempted; when it cannot proceed the goroutine stays parked and
    tries again after the others have acted once more. *)
Fixpoint blocking {A : Type} (fuel : nat)
    (attempt : Machine W -> option (Res W A)) : M W A :=
  fun m =>
    let m1 := yield m in
    match attempt m1 with
    | Some r => r
    | None =>
        match fuel with
        | O => Running m1
        | S fuel' => blocking fuel' attempt m1
        end
    end.

Definition set_headersQueue (c : chan hptr) (m : Machine W) : Machine W :=
  mkMachine (store m)
    (mkForwarder (processedHeaders (fwd m)) c (errChan (fwd m)) (quit (fwd m)))
    (world m) (trace m).

Definition set_errChan (c : chan error) (m : Machine W) : Machine W :=
  mkMachine (store m)
    (mkForwarder (processedHeaders (fwd m)) (headersQueue (fwd m)) c (quit (fwd m)))
    (world m) (trace m).

Definition set_quit (c : chan bool) (m : Machine W) : Machine W :=
  mkMachine (store m)
    (mkForwarder (processedHeaders (fwd m)) (headersQueue (fwd m)) (errChan (fwd m)) c)
    (world m) (trace m).

Definition set_world (w : W) (m : Machine W) : Machine W :=
  mkMachine (store m) (fwd m) w (trace m).

(** [f.headersQueue <- p] *)
Definition trySendHeader (p : hptr) (m : Machine W) : option (Res W unit) :=
  match chan_send (headersQueue (fwd m)) p with
  | Sent c =>
      Some (Done tt (log (EvEnqueue p (deref (store m) p)) (set_headersQueue c m)))
  | WouldBlock => None
  | SendOnClosed => Some (Panic m)
  end.

Definition sendHeader (fuel : nat) (p : hptr) : M W unit :=
  blocking fuel (trySendHeader p).

(** [f.errChan <- e] *)
Definition trySendError (e : error) (m : Machine W) : option (Res W unit) :=
  match chan_send (errChan (fwd m)) e with
  | Sent c => Some (Done tt (log (EvReport e) (set_errChan c m)))
  | WouldBlock => None
  | SendOnClosed => Some (Panic m)
  end.

Definition sendError (fuel : nat) (e : error) : M W unit :=
  blocking fuel (trySendError e).

(** The cases of a select that can proceed: [<-ctx.Done()], [<-f.quit]
    and, in the sleeping select, [<-time.After(d)]. *)
Definition ready_cases (timer : option Z) (m : Machine W) : list SelCase :=
  (if ctxDone (world m) then [SelCtxDone] else [])
  ++ (if chan_ready (quit (fwd m)) then [SelQuit] else [])
  ++ (match timer with
      | Some d => if timerFired d (world m) then [SelTimer] else []
      | None => []
      end).

(** The communication of the case taken: only [<-f.quit] changes
    anything, it takes the buffered value. *)
Definition take_case (c : SelCase) (m : Machine W) : Machine W :=
  match c with
  | SelQuit => set_quit (chan_recv (quit (fwd m))) m
  | SelCtxDone | SelTimer => m
  end.

(** A select takes one of its ready cases, chosen by the runtime. *)
Definition choose (cs : list SelCase) (m : Machine W)
    : option (SelCase * Machine W) :=
  match cs with
  | [] => None
  | c0 :: _ =>
      let '(k, w) := pick (length cs) (world m) in
      let c := nth (k mod length cs)%nat cs c0 in
      Some (c, take_case c (set_world w m))
  end.

(** The select at the top of both loops:
    [case <-ctx.Done()], [case <-f.quit], [default]. *)
Definition selectCancel : M W (option SelCase) :=
  fun m =>
    let m1 := yield m in
    match choose (ready_cases None m1) m1 with
    | None => Done None m1
    | Some (c, m2) => Done (Some c) (log (EvCancelled c) m2)
    end.

(** The sleeping select of both loops:
    [case <-time.After(d)], [case <-ctx.Done()], [case <-f.quit],
    each with an empty body. *)
Definition tryWake (d : Z) (m : Machine W) : option (Res W unit) :=
  match choose (ready_cases (Some d) m) m with
  | None => None
  | Some (c, m2) => Some (Done tt (log (EvWake c) m2))
  end.

Definition sleepSelect (fuel : nat) (d : Z) : M W unit :=
  fun m => blocking fuel (tryWake d) (log (EvSleep d) m).

(** *** [findBestBlock] *)

(** The [for !headersEqual(bestHeader, betterOrSameHeader)] loop; one
    unit of fuel per execution of its body. *)
Fixpoint findBestBlock_for (fuel : nat) (bestHeader betterOrSameHeader : hptr)
    : M W (result hptr) :=
  let! eq := headersEqualM bestHeader betterOrSameHeader in
  if eq then ret (Ok bestHeader)
  else
    match fuel with
    | O => fun m => Running m
    | S fuel' =>
        let! b := load bestHeader in
        let? bestHeader' := callGetHeaderByDigest (PrevHash b) in
        let! b' := load bestHeader' in
        let? betterOrSameHeader' := callGetHeaderByHeight (Height b') in
        findBestBlock_for fuel' bestHeader' betterOrSameHeader'
    end.

Definition findBestBlock (fuel : nat) : M W (result hptr) :=
  let? currentBestDigest := callGetBestKnownDigest in
  let? bestHeader := callGetHeaderByDigest currentBestDigest in
  let! b := load bestHeader in
  let? betterOrSameHeader := callGetHeaderByHeight (Height b) in
  findBestBlock_for fuel bestHeader betterOrSameHeader.

(** *** [pullingLoop] *)

(** The [for] loop of [pullingLoop]; one unit of fuel per iteration. *)
Fixpoint pullingLoop_for (fuel : nat) (latestHeight : Z) (lastAdded : hptr)
    : M W unit :=
  match fuel with
  | O => fun m => Running m
  | S fuel' =>
      let! c := selectCancel in
      match c with
      | Some _ => ret tt
      | None =>
          let! r := callGetBlockCount in
          match r with
          | Err err => sendError fuel' (Errorf fmt_block_count err)
          | Ok chainHeight =>
              if latestHeight <=? chainHeight then
                let! r := callGetHeaderByHeight latestHeight in
                match r with
                | Err err =>
                    sendError fuel'
                      (ErrorfAt fmt_header_by_height latestHeight err)
                | Ok newHeader =>
                    let! eq := headersEqualM newHeader lastAdded in
                    if negb eq then
                      let! _ := sendHeader fuel' newHeader in
                      let! _ := copyHeadersM lastAdded newHeader in
                      pullingLoop_for fuel' (add64 latestHeight 1) lastAdded
                    else pullingLoop_for fuel' latestHeight lastAdded
                end
              else
                let! _ := sleepSelect fuel' forwarderPullingSleepTime in
                pullingLoop_for fuel' latestHeight lastAdded
          end
      end
  end.

Definition pullingLoop (fuel : nat) : M W unit :=
  let! r := findBestBlock fuel in
  match r with
  | Err err => sendError fuel (Errorf fmt_find_best_block err)
  | Ok latestHeader =>
      let! h := load latestHeader in
      let latestHeight := add64 (Height h) 1 in
      let! lastAdded := newZeroHeader in
      pullingLoop_for fuel latestHeight lastAdded
  end.

(** *** [pushingLoop] *)

Fixpoint pushingLoop (fuel : nat) : M W unit :=
  match fuel with
  | O => fun m => Running m
  | S fuel' =>
      let! c := selectCancel in
      match c with
      | Some _ => ret tt
      | None =>
          let! headers := pullHeadersFromQueue fuel' in
          if (length headers =? 0)%nat then pushingLoop fuel'
          else
            let! r := (fun m => pushHeadersToHostChain fuel' headers
                                  (log (EvPush headers) m)) in
            match r with
            | Some err => sendError fuel' (Errorf fmt_push_headers err)
            | None =>
                let! _ := sleepSelect fuel' forwarderPushingSleepTime in
                pushingLoop fuel'
            end
      end
  end.

(** *** [RunForwarder] *)

(** The forwarder that [RunForwarder] builds.  Its two [go] statements
    start [pullingLoop] and [pushingLoop] on it; each of them sees the
    other through [interfere]. *)
Definition RunForwarder : Forwarder :=
  {| processedHeaders := 0;
     headersQueue := make_chan headersQueueSize;
     errChan := make_chan 1;
     quit := make_chan 1 |}.
End Forwarder.

(** ** Example stores *)

Definition digest_byte (z : Z) : byte :=
  default Byte.x00 (Byte.of_N (Z.to_N (z mod 256))).

(** The [k] low-order bytes of [n], least significant first. *)
Fixpoint le_bytes (k : nat) (n : Z) : list byte :=
  match k with
  | O => []
  | S k' => digest_byte n :: le_bytes k' (n / 256)
  end.

(** A 32-byte digest standing for block [n] of the chain tagged [tag]. *)
Definition digest_of (tag : byte) (n : Z) : Digest := tag :: le_bytes 31 n.

(** Block 7 of chain [0a], with its serialization in buffer [b]. *)
Definition header_a7 (b : nat) : Header :=
  {| Hash := digest_of Byte.x0a 7; Height := 7;
     PrevHash := digest_of Byte.x0a 6;
     MerkleRoot := zeroDigest; Raw := Some b |}.

(** Two headers that differ in nothing but the bytes of [Raw]. *)
Definition store_raw_differs : Store :=
  {| hdrs := [ header_a7 0;
               header_a7 1 ];
     bufs := [ [Byte.x01; Byte.x02]; [Byte.x01; Byte.x03] ] |}.

(** One header, with two bytes of [Raw]. *)
Definition store_one_header : Store :=
  {| hdrs := [ header_a7 0 ];
     bufs := [ [Byte.x01; Byte.x02] ] |}.

(** The same header and a zero header to copy into. *)
Definition store_two_headers : Store :=
  {| hdrs := hdrs store_one_header ++ [zeroHeader];
     bufs := bufs store_one_header |}.

(** ** What the trace shows *)

(** The headers sent on the queue, oldest first, as they were when sent. *)
Definition enqueued (t : list Event) : list Header :=
  omap (fun e => match e with
                 | EvEnqueue _ (Some h) => Some h
                 | _ => None
                 end) t.

(** [served_from P L l]: the headers of [l] answer the height requests
    [L], [L + 1], ... in this order, every answer [h] to a request [n]
    having the property [P n h]. *)
Inductive served_from (P : Z -> Header -> Prop) : Z -> list Header -> Prop :=
| served_nil L : served_from P L []
| served_cons L h l :
    P L h -> served_from P (add64 L 1) l -> served_from P L (h :: l).

(** A send on [c] can proceed, or has to wait. *)
Definition room {A : Type} (c : chan A) : Prop :=
  ch_closed c = false /\ (length (ch_buf c) < ch_cap c)%nat.

Definition full {A : Type} (c : chan A) : Prop :=
  ch_closed c = false /\ (ch_cap c <= length (ch_buf c))%nat.

(** The events after which a loop returns: the select at its top took
    [<-ctx.Done()] or [<-f.quit], or an error was sent. *)
Definition return_cause (ev : Event) : Prop :=
  match ev with
  | EvCancelled SelCtxDone | EvCancelled SelQuit | EvReport _ => True
  | _ => False
  end.

Definition returned_for_cause {W : Type} (m : Machine W) : Prop :=
  exists ev, last (trace m) = Some ev /\ return_cause ev.

(** [h] is an answer of the Bitcoin node to a request for height [n]. *)
Definition served_by_node {W : Type} {btcChain : BtcHandle W}
    (n : Z) (h : Header) : Prop :=
  exists s (w : W) p s' w',
    GetHeaderByHeight n s w = (Ok p, s', w') /\ deref s' p = Some h.

Definition in_int64 (z : Z) : Prop := min_int64 <= z <= max_int64.

(** A computation has ended, by returning or by a panic, when it is not
    still running. *)
Definition terminated {W A : Type} (r : Res W A) : Prop :=
  match r with
  | Done _ _ | Panic _ => True
  | Running _ => False
  end.

(** ** The spec's description of two operations, for comparison *)

Section Specification.
Context {W : Type}.
Context {btcChain : BtcHandle W} {hostChain : ChainHandle W}.
Context {rt : Runtime W}.

(** Ancestor discovery in the spec's words (section 4.1, steps 3 and 4):
    while the candidate differs from the canonical header at its height,
    step back to the header with the digest [candidate.PrevHash] and
    fetch the canonical header at the new candidate's height; the
    surviving candidate is the ancestor; any failed call is fatal. *)
Inductive ancestor_walk :
    hptr -> hptr -> Machine W -> result hptr -> Machine W -> Prop :=
| walk_survives candidate canonical m :
    headersEqual (store m) candidate canonical = Some true ->
    ancestor_walk candidate canonical m (Ok candidate) m
| walk_back candidate canonical m c parent m1 p canonical' m2 r m3 :
    headersEqual (store m) candidate canonical = Some false ->
    deref (store m) candidate = Some c ->
    callGetHeaderByDigest (PrevHash c) m = Done (Ok parent) m1 ->
    deref (store m1) parent = Some p ->
    callGetHeaderByHeight (Height p) m1 = Done (Ok canonical') m2 ->
    ancestor_walk parent canonical' m2 r m3 ->
    ancestor_walk candidate canonical m r m3
| walk_parent_fails candidate canonical m c e m1 :
    headersEqual (store m) candidate canonical = Some false ->
    deref (store m) candidate = Some c ->
    callGetHeaderByDigest (PrevHash c) m = Done (Err e) m1 ->
    ancestor_walk candidate canonical m (Err e) m1
| walk_canonical_fails candidate canonical m c parent m1 p e m2 :
    headersEqual (store m) candidate canonical = Some false ->
    deref (store m) candidate = Some c ->
    callGetHeaderByDigest (PrevHash c) m = Done (Ok parent) m1 ->
    deref (store m1) parent = Some p ->
    callGetHeaderByHeight (Height p) m1 = Done (Err e) m2 ->
    ancestor_walk candidate canonical m (Err e) m2.

(** Steps 1 and 2, then the walk. *)
Inductive ancestor_discovery :
    Machine W -> result hptr -> Machine W -> Prop :=
| discovery_no_digest m e m1 :
    callGetBestKnownDigest m = Done (Err e) m1 ->
    ancestor_discovery m (Err e) m1
| discovery_digest_unknown m hostBestDigest m1 e m2 :
    callGetBestKnownDigest m = Done (Ok hostBestDigest) m1 ->
    callGetHeaderByDigest hostBestDigest m1 = Done (Err e) m2 ->
    ancestor_discovery m (Err e) m2
| discovery_canonical_fails m hostBestDigest m1 candidate m2 c e m3 :
    callGetBestKnownDigest m = Done (Ok hostBestDigest) m1 ->
    callGetHeaderByDigest hostBestDigest m1 = Done (Ok candidate) m2 ->
    deref (store m2) candidate = Some c ->
    callGetHeaderByHeight (Height c) m2 = Done (Err e) m3 ->
    ancestor_discovery m (Err e) m3
| discovery_walk m hostBestDigest m1 candidate m2 c canonical m3 r m4 :
    callGetBestKnownDigest m = Done (Ok hostBestDigest) m1 ->
    callGetHeaderByDigest hostBestDigest m1 = Done (Ok candidate) m2 ->
    deref (store m2) candidate = Some c ->
    callGetHeaderByHeight (Height c) m2 = Done (Ok canonical) m3 ->
    ancestor_walk candidate canonical m3 r m4 ->
    ancestor_discovery m r m4.

(** Error reporting in the spec's words (section 7): a non-blocking
    send, [select { case f.errChan <- e: default: }]; when the buffer
    is full the error is dropped and the sender goes on. *)
Definition sendErrorNonBlocking (e : error) : M W unit :=
  fun m =>
    let m1 := yield m in
    match chan_send (errChan (fwd m1)) e with
    | Sent c => Done tt (log (EvReport e) (set_errChan c m1))
    | WouldBlock => Done tt m1
    | SendOnClosed => Panic m1
    end.
End Specification.

(** ** Scripted collaborators

    A world in which every answer of the collaborators is given by a
    script.  The world is a clock; each call of a collaborator and each
    turn of the other parties advances it by one. *)

(** What a Bitcoin node knows of a block. *)
Record HeaderData := mkData {
  d_Hash : Digest;
  d_Height : Z;
  d_PrevHash : Digest;
  d_MerkleRoot : Digest;
  d_Raw : list byte
}.

(** The handle returns a pointer to a new header with a new buffer. *)
Definition alloc_header (hd : HeaderData) (s : Store) : hptr * Store :=
  (Some (length (hdrs s)),
   {| hdrs := hdrs s ++ [ {| Hash := d_Hash hd; Height := d_Height hd;
                             PrevHash := d_PrevHash hd;
                             MerkleRoot := d_MerkleRoot hd;
                             Raw := Some (length (bufs s)) |} ];
      bufs := bufs s ++ [d_Raw hd] |}).

Record Script := mkScript {
  sc_best_digest : nat -> result Digest;
  sc_by_digest : nat -> Digest -> result HeaderData;
  sc_by_height : nat -> Z -> result HeaderData;
  sc_block_count : nat -> result Z;
  sc_ctx_done : nat -> bool;
  sc_timer : Z -> nat -> bool;
  sc_pick : nat -> nat -> nat;
  sc_peers : nat -> Forwarder -> Forwarder;
  sc_batch : nat -> list hptr;
  sc_push : nat -> list hptr -> option error
}.

Definition answer (r : result HeaderData) (s : Store) (t : nat)
    : result hptr * Store * nat :=
  match r with
  | Ok hd => let '(p, s') := alloc_header hd s in (Ok p, s', S t)
  | Err e => (Err e, s, S t)
  end.

Definition scripted_btc (sc : Script) : BtcHandle nat :=
  {| GetHeaderByHeight := fun n s t => answer (sc_by_height sc t n) s t;
     GetHeaderByDigest := fun d s t => answer (sc_by_digest sc t d) s t;
     GetBlockCount := fun t => (sc_block_count sc t, S t) |}.

Definition scripted_host (sc : Script) : ChainHandle nat :=
  {| GetBestKnownDigest := fun t => (sc_best_digest sc t, S t) |}.

Definition scripted_rt (sc : Script) : Runtime nat :=
  {| ctxDone := sc_ctx_done sc;
     timerFired := sc_timer sc;
     pick := fun n t => (sc_pick sc n t, S t);
     interfere := fun f t => (sc_peers sc t f, S t) |}.

Definition scripted_helpers (sc : Script) : Helpers nat :=
  {| pullHeadersFromQueue := fun _ m =>
       Done (sc_batch sc (world m))
         (mkMachine (store m) (fwd m) (S (world m)) (trace m));
     pushHeadersToHostChain := fun _ hs m =>
       Done (sc_push sc (world m) hs)
         (mkMachine (store m) (fwd m) (S (world m)) (trace m)) |}.

Definition empty_store : Store := {| hdrs := []; bufs := [] |}.

(** The machine on which [RunForwarder] starts the loops. *)
Definition start_machine : Machine nat :=
  mkMachine empty_store RunForwarder 0%nat [].

(** *** A node with one chain *)

(** Block [n] of the chain tagged [tag]; its parent is block [n - 1]. *)
Definition block (tag : byte) (n : Z) : HeaderData :=
  {| d_Hash := digest_of tag n; d_Height := n;
     d_PrevHash := digest_of tag (wrap64 (n - 1));
     d_MerkleRoot := zeroDigest;
     d_Raw := le_bytes 80 n |}.

Definition chain_header (tag : byte) (n : Z) : Header :=
  {| Hash := digest_of tag n; Height := n;
     PrevHash := digest_of tag (wrap64 (n - 1));
     MerkleRoot := zeroDigest; Raw := None |}.

(** The host chain's best digest is block 100 of chain [0a], the node is
    at block 102 of that chain; nothing is cancelled, the other parties
    leave the channels alone, batch assembly finds nothing. *)
Definition steady_script : Script :=
  {| sc_best_digest := fun _ => Ok (digest_of Byte.x0a 100);
     sc_by_digest := fun _ d =>
       if bool_decide (d = digest_of Byte.x0a 100)
       then Ok (block Byte.x0a 100)
       else Err (ExternalError "unknown digest");
     sc_by_height := fun _ n => Ok (block Byte.x0a n);
     sc_block_count := fun _ => Ok 102;
     sc_ctx_done := fun _ => false;
     sc_timer := fun _ _ => true;
     sc_pick := fun _ _ => 0%nat;
     sc_peers := fun _ f => f;
     sc_batch := fun _ => [];
     sc_push := fun _ _ => None |}.

Definition steady_btc : BtcHandle nat := scripted_btc steady_script.
Definition steady_host : ChainHandle nat := scripted_host steady_script.
Definition steady_rt : Runtime nat := scripted_rt steady_script.
Definition steady_helpers : Helpers nat := scripted_helpers steady_script.

(** The machine in which [findBestBlock] has found block 100. *)
Definition steady_ancestor_found : Machine nat :=
  final (findBestBlock (btcChain := steady_btc) (hostChain := steady_host)
           0 start_machine).

(** Block 100 as [findBestBlock] returns it. *)
Definition steady_ancestor : Header :=
  {| Hash := digest_of Byte.x0a 100; Height := 100;
     PrevHash := digest_of Byte.x0a (wrap64 (100 - 1));
     MerkleRoot := zeroDigest; Raw := Some 0%nat |}.

(** The machine at the first iteration of the pulling loop. *)
Definition steady_loop_start : Machine nat :=
  mkMachine (new_header (store steady_ancestor_found) zeroHeader).2
    (fwd steady_ancestor_found) (world steady_ancestor_found)
    (trace steady_ancestor_found).

(** The first iteration of the pulling loop on it: after the select,
    after the block count, after the fetch of the header at 101. *)
Definition steady_after_select : Machine nat :=
  final (selectCancel (rt := steady_rt) steady_loop_start).

Definition steady_after_count : Machine nat :=
  final (callGetBlockCount (btcChain := steady_btc) steady_after_select).

Definition steady_after_fetch : Machine nat :=
  final (callGetHeaderByHeight (btcChain := steady_btc) 101 steady_after_count).

(** Block 101 as the fetch returns it, at address 3. *)
Definition steady_header_101 : Header :=
  {| Hash := digest_of Byte.x0a 101; Height := 101;
     PrevHash := digest_of Byte.x0a (wrap64 (101 - 1));
     MerkleRoot := zeroDigest; Raw := Some 2%nat |}.

(** As [steady_script], with the context cancelled from the start. *)
Definition cancelled_script : Script :=
  {| sc_best_digest := sc_best_digest steady_script;
     sc_by_digest := sc_by_digest steady_script;
     sc_by_height := sc_by_height steady_script;
     sc_block_count := sc_block_count steady_script;
     sc_ctx_done := fun _ => true;
     sc_timer := sc_timer steady_script;
     sc_pick := sc_pick steady_script;
     sc_peers := sc_peers steady_script;
     sc_batch := sc_batch steady_script;
     sc_push := sc_push steady_script |}.

Definition cancelled_btc : BtcHandle nat := scripted_btc cancelled_script.
Definition cancelled_host : ChainHandle nat := scripted_host cancelled_script.
Definition cancelled_rt : Runtime nat := scripted_rt cancelled_script.
Definition cancelled_helpers : Helpers nat := scripted_helpers cancelled_script.

(** As [steady_script], with a node that answers every height request
    with block 101. *)
Definition reserving_script : Script :=
  {| sc_best_digest := sc_best_digest steady_script;
     sc_by_digest := sc_by_digest steady_script;
     sc_by_height := fun _ n =>
       if bool_decide (n = 100) then Ok (block Byte.x0a 100)
       else Ok (block Byte.x0a 101);
     sc_block_count := sc_block_count steady_script;
     sc_ctx_done := sc_ctx_done steady_script;
     sc_timer := sc_timer steady_script;
     sc_pick := sc_pick steady_script;
     sc_peers := sc_peers steady_script;
     sc_batch := sc_batch steady_script;
     sc_push := sc_push steady_script |}.

Definition reserving_btc : BtcHandle nat := scripted_btc reserving_script.
Definition reserving_host : ChainHandle nat := scripted_host reserving_script.
Definition reserving_rt : Runtime nat := scripted_rt reserving_script.
Definition reserving_helpers : Helpers nat := scripted_helpers reserving_script.

(** *** A node that reorganizes while the puller walks

    As [steady_script], but from the seventh tick on the node serves
    chain [0b]: the header at 101 comes from chain [0a], the header at
    102 from chain [0b]. *)
Definition reorg_script : Script :=
  {| sc_best_digest := sc_best_digest steady_script;
     sc_by_digest := sc_by_digest steady_script;
     sc_by_height := fun t n =>
       if (t <? 7)%nat then Ok (block Byte.x0a n) else Ok (block Byte.x0b n);
     sc_block_count := sc_block_count steady_script;
     sc_ctx_done := sc_ctx_done steady_script;
     sc_timer := sc_timer steady_script;
     sc_pick := sc_pick steady_script;
     sc_peers := sc_peers steady_script;
     sc_batch := sc_batch steady_script;
     sc_push := sc_push steady_script |}.

Definition reorg_btc : BtcHandle nat := scripted_btc reorg_script.
Definition reorg_host : ChainHandle nat := scripted_host reorg_script.
Definition reorg_rt : Runtime nat := scripted_rt reorg_script.
Definition reorg_helpers : Helpers nat := scripted_helpers reorg_script.

(** *** A host chain on a stale block

    The host chain's best digest is block 1 of chain [0b], a child of
    block 0 of chain [0a]; the node's chain is [0a]. *)
Definition stale_block : HeaderData :=
  {| d_Hash := digest_of Byte.x0b 1; d_Height := 1;
     d_PrevHash := digest_of Byte.x0a 0;
     d_MerkleRoot := zeroDigest;
     d_Raw := le_bytes 80 1 |}.

Definition stale_script : Script :=
  {| sc_best_digest := fun _ => Ok (digest_of Byte.x0b 1);
     sc_by_digest := fun _ d =>
       if bool_decide (d = digest_of Byte.x0b 1) then Ok stale_block
       else if bool_decide (d = digest_of Byte.x0a 0) then Ok (block Byte.x0a 0)
       else Err (ExternalError "unknown digest");
     sc_by_height := fun _ n => Ok (block Byte.x0a n);
     sc_block_count := fun _ => Ok 2;
     sc_ctx_done := fun _ => false;
     sc_timer := fun _ _ => true;
     sc_pick := fun _ _ => 0%nat;
     sc_peers := fun _ f => f;
     sc_batch := fun _ => [];
     sc_push := fun _ _ => None |}.

Definition stale_btc : BtcHandle nat := scripted_btc stale_script.
Definition stale_host : ChainHandle nat := scripted_host stale_script.
Definition stale_rt : Runtime nat := scripted_rt stale_script.
Definition stale_helpers : Helpers nat := scripted_helpers stale_script.

(** The machine at the loop of [findBestBlock]: the stale block is the
    candidate, at address 0; block 1 of chain [0a], at address 1, is the
    canonical header of its height. *)
Definition stale_walk_start : Machine nat :=
  mkMachine (alloc_header (block Byte.x0a 1)
               (alloc_header stale_block empty_store).2).2
    RunForwarder 3%nat [].

Definition stale_header : Header :=
  {| Hash := digest_of Byte.x0b 1; Height := 1;
     PrevHash := digest_of Byte.x0a 0;
     MerkleRoot := zeroDigest; Raw := Some 0%nat |}.

(** The candidates of the walk on [stale_script]: the stale block, or
    block 0 of chain [0a]. *)
Definition stale_candidates (best : hptr) (m : Machine nat) : Prop :=
  exists b, deref (store m) best = Some b /\
    ((Height b = 1 /\ PrevHash b = digest_of Byte.x0a 0) \/
     (Height b = 0 /\ PrevHash b = digest_of Byte.x0a (wrap64 (0 - 1)))).

(** *** Failing collaborators and a full error channel

    The host chain and the node's headers cannot be reached, the node's
    block count is [count], and the submission to the host chain fails;
    batch assembly yields one header.  The other parties leave the
    channels alone, except that at the tick [receive_at] an error is
    received from the error channel. *)
Definition failing_script (receive_at : option nat) (count : result Z) : Script :=
  {| sc_best_digest := fun _ => Err (ExternalError "host chain down");
     sc_by_digest := fun _ _ => Err (ExternalError "node down");
     sc_by_height := fun _ _ => Err (ExternalError "node down");
     sc_block_count := fun _ => count;
     sc_ctx_done := fun _ => false;
     sc_timer := fun _ _ => true;
     sc_pick := fun _ _ => 0%nat;
     sc_peers := fun t f =>
       if bool_decide (receive_at = Some t)
       then mkForwarder (processedHeaders f) (headersQueue f)
              (chan_recv (errChan f)) (quit f)
       else f;
     sc_batch := fun _ => [Some 0%nat];
     sc_push := fun _ _ => Some (ExternalError "submission failed") |}.

Definition node_down : result Z := Err (ExternalError "node down").

Definition failing_btc (r : option nat) (c : result Z) : BtcHandle nat :=
  scripted_btc (failing_script r c).
Definition failing_host (r : option nat) (c : result Z) : ChainHandle nat :=
  scripted_host (failing_script r c).
Definition failing_rt (r : option nat) (c : result Z) : Runtime nat :=
  scripted_rt (failing_script r c).
Definition failing_helpers (r : option nat) (c : result Z) : Helpers nat :=
  scripted_helpers (failing_script r c).

(** Nobody receives from the error channel. *)
Definition blocked_btc : BtcHandle nat := failing_btc None node_down.
Definition blocked_host : ChainHandle nat := failing_host None node_down.
Definition blocked_rt : Runtime nat := failing_rt None node_down.
Definition blocked_helpers : Helpers nat := failing_helpers None node_down.

(** The buffered error is received at tick 5. *)
Definition received_btc : BtcHandle nat := failing_btc (Some 5%nat) node_down.
Definition received_host : ChainHandle nat := failing_host (Some 5%nat) node_down.
Definition received_rt : Runtime nat := failing_rt (Some 5%nat) node_down.
Definition received_helpers : Helpers nat := failing_helpers (Some 5%nat) node_down.

(** The block count is answered, the fetch of a header fails. *)
Definition fetchfail_btc : BtcHandle nat := failing_btc None (Ok 102).
Definition fetchfail_host : ChainHandle nat := failing_host None (Ok 102).
Definition fetchfail_rt : Runtime nat := failing_rt None (Ok 102).
Definition fetchfail_helpers : Helpers nat := failing_helpers None (Ok 102).

(** The forwarder after the other loop has reported an error that nobody
    has received yet. *)
Definition reported_forwarder : Forwarder :=
  mkForwarder 0 (make_chan headersQueueSize)
    (mkChan 1 [ExternalError "reported by the other loop"] false)
    (make_chan 1).

Definition reported_machine : Machine nat :=
  mkMachine store_one_header reported_forwarder 0%nat [].

(** The pulling loop on [reported_machine]: after the select and after
    the failed block count. *)
Definition reported_after_select : Machine nat :=
  final (selectCancel (rt := blocked_rt) reported_machine).

Definition reported_after_count : Machine nat :=
  final (callGetBlockCount (btcChain := blocked_btc) reported_after_select).

(** The pushing loop on [reported_machine]: after batch assembly and
    after the failed submission. *)
Definition reported_after_batch : Machine nat :=
  final (pullHeadersFromQueue (Helpers := blocked_helpers) 0 reported_after_select).

Definition reported_after_push : Machine nat :=
  final (pushHeadersToHostChain (Helpers := blocked_helpers) 0 [Some 0%nat]
           (mkMachine (store reported_after_batch) (fwd reported_after_batch)
              (world reported_after_batch)
              (trace reported_after_batch ++ [EvPush [Some 0%nat]]))).

Definition node_down_error : error :=
  Errorf fmt_block_count (ExternalError "node down").

Definition push_error : error :=
  Errorf fmt_push_headers (ExternalError "submission failed").

(** ** Further examples *)

(** Two headers with the same fields and the same bytes in two buffers. *)
Definition store_two_copies : Store :=
  {| hdrs := [header_a7 0; header_a7 1];
     bufs := [ [Byte.x01; Byte.x02]; [Byte.x01; Byte.x02] ] |}.

(** The same, with a zero header to copy into. *)
Definition store_three_headers : Store :=
  {| hdrs := hdrs store_two_copies ++ [zeroHeader];
     bufs := bufs store_two_copies |}.

(** ** The shape of what a loop does *)

Definition is_done {W A : Type} (r : Res W A) : bool :=
  match r with
  | Done _ _ => true
  | Panic _ | Running _ => false
  end.

(** The events of a run of the pulling loop, in order, and whether the
    run has returned: headers are enqueued and sleeps are slept, until a
    cancellation or a report ends the loop; a run that has not returned
    may have stopped in a sleep. *)
Inductive puller_trace : bool -> list Event -> Prop :=
| pl_going : puller_trace false []
| pl_cancelled c : puller_trace true [EvCancelled c]
| pl_reported e : puller_trace true [EvReport e]
| pl_sleeping : puller_trace false [EvSleep forwarderPullingSleepTime]
| pl_enqueued b p h t :
    puller_trace b t -> puller_trace b (EvEnqueue p h :: t)
| pl_slept b c t :
    puller_trace b t ->
    puller_trace b (EvSleep forwarderPullingSleepTime :: EvWake c :: t).

(** The same for the pushing loop: rounds of a submission of a batch
    that is not empty, the sleep and the wake-up, until a cancellation or
    the report of a failed submission ends the loop; a run that has not
    returned may have stopped in a submission, in the send of its error
    or in a sleep. *)
Inductive pusher_trace : bool -> list Event -> Prop :=
| ps_going : pusher_trace false []
| ps_cancelled c : pusher_trace true [EvCancelled c]
| ps_submitting hs : hs <> [] -> pusher_trace false [EvPush hs]
| ps_reported hs e : hs <> [] -> pusher_trace true [EvPush hs; EvReport e]
| ps_sleeping hs :
    hs <> [] -> pusher_trace false [EvPush hs; EvSleep forwarderPushingSleepTime]
| ps_round b hs c t :
    hs <> [] -> pusher_trace b t ->
    pusher_trace b (EvPush hs :: EvSleep forwarderPushingSleepTime :: EvWake c :: t).

(** A request for height [n] that a block count of the node allows. *)
Definition below_tip {W : Type} {btcChain : BtcHandle W} (n : Z) : Prop :=
  exists (w : W) c w', GetBlockCount w = (Ok c, w') /\ n <= c.

(** ** The channel accessors of the forwarder *)

(** [func (f *Forwarder) ErrChan() <-chan error] *)
Definition ErrChan (f : Forwarder) : chan error := errChan f.

(** [func (f *Forwarder) QuitChan() chan<- bool] *)
Definition QuitChan (f : Forwarder) : chan bool := quit f.

(** ** The string forms of digests and headers *)

(** [hextable] of package encoding/hex. *)
Definition hextable : list Ascii.ascii := String.list_ascii_of_string "0123456789abcdef".

Definition hex_digit (n : N) : Ascii.ascii := nth (N.to_nat n) hextable Ascii.zero.

(** [hex.Encode]: for each byte [v], [hextable[v>>4]] then
    [hextable[v&0x0f]]. *)
Fixpoint hex_encode (bs : list byte) : list Ascii.ascii :=
  match bs with
  | [] => []
  | v :: bs' =>
      hex_digit (Byte.to_N v / 16) :: hex_digit (Byte.to_N v mod 16)
        :: hex_encode bs'
  end.

(** [hex.EncodeToString] *)
Definition EncodeToString (bs : list byte) : string :=
  String.string_of_list_ascii (hex_encode bs).

(** package btc, [func (d Digest) String() string] *)
Definition Digest_String (d : Digest) : string := EncodeToString d.

(** The verb [%d] of package fmt on an int64: decimal digits, with a
    minus sign before them for a negative number. *)
Definition format_d (z : Z) : list Ascii.ascii :=
  String.list_ascii_of_string (DecimalString.NilEmpty.string_of_int (Z.to_int z)).

(** The characters that [Header.String] formats; the verb [%s] on a
    [Digest] calls its [String] method. *)
Definition format_Header (h : Header) (raw : list byte) : list Ascii.ascii :=
  String.list_ascii_of_string "Hash: " ++ hex_encode (Hash h)
  ++ String.list_ascii_of_string ", Height: " ++ format_d (Height h)
  ++ String.list_ascii_of_string ", PrevHash: " ++ hex_encode (PrevHash h)
  ++ String.list_ascii_of_string ", MerkleRoot: " ++ hex_encode (MerkleRoot h)
  ++ String.list_ascii_of_string ", Raw: " ++ hex_encode raw.

(** package btc, [func (header *Header) String() string]; [None] is the
    panic on a nil receiver. *)
Definition Header_String (s : Store) (header : hptr) : option string :=
  h ← deref s header;
  raw ← slice_bytes s (Raw h);
  Some (String.string_of_list_ascii (format_Header h raw)).

(** The character [,]. *)
Definition comma : Ascii.ascii :=
  Ascii.Ascii false false true true false true false false.

(** The Go type [Digest] is an array of 32 bytes. *)
Definition digests_32 (h : Header) : Prop :=
  length (Hash h) = 32%nat /\ length (PrevHash h) = 32%nat
  /\ length (MerkleRoot h) = 32%nat.

(** ** Further scripted collaborators *)

(** As [steady_script], with a batch of one header at every assembly
    and submissions that succeed. *)
Definition pushing_script : Script :=
  {| sc_best_digest := sc_best_digest steady_script;
     sc_by_digest := sc_by_digest steady_script;
     sc_by_height := sc_by_height steady_script;
     sc_block_count := sc_block_count steady_script;
     sc_ctx_done := sc_ctx_done steady_script;
     sc_timer := sc_timer steady_script;
     sc_pick := sc_pick steady_script;
     sc_peers := sc_peers steady_script;
     sc_batch := fun _ => [Some 0%nat];
     sc_push := fun _ _ => None |}.

Definition pushing_btc : BtcHandle nat := scripted_btc pushing_script.
Definition pushing_host : ChainHandle nat := scripted_host pushing_script.
Definition pushing_rt : Runtime nat := scripted_rt pushing_script.
Definition pushing_helpers : Helpers nat := scripted_helpers pushing_script.

Definition pushing_machine : Machine nat :=
  mkMachine store_one_header RunForwarder 0%nat [].

(** As [steady_script], with timers that never fire. *)
Definition sleeping_script : Script :=
  {| sc_best_digest := sc_best_digest steady_script;
     sc_by_digest := sc_by_digest steady_script;
     sc_by_height := sc_by_height steady_script;
     sc_block_count := sc_block_count steady_script;
     sc_ctx_done := sc_ctx_done steady_script;
     sc_timer := fun _ _ => false;
     sc_pick := sc_pick steady_script;
     sc_peers := sc_peers steady_script;
     sc_batch := sc_batch steady_script;
     sc_push := sc_push steady_script |}.

Definition sleeping_btc : BtcHandle nat := scripted_btc sleeping_script.
Definition sleeping_host : ChainHandle nat := scripted_host sleeping_script.
Definition sleeping_rt : Runtime nat := scripted_rt sleeping_script.
Definition sleeping_helpers : Helpers nat := scripted_helpers sleeping_script.

(** The forwarder after one value has been sent on [QuitChan()]. *)
Definition quit_sent_machine : Machine nat :=
  mkMachine empty_store
    (mkForwarder 0 (make_chan headersQueueSize) (make_chan 1)
       (mkChan 1 [true] false))
    0%nat [].

(** * The contract [TBTCSystem]

    implementation/contracts/system/TBTCSystem.sol.  The contract's own
    variables and the functions that write them.  A call that reverts
    leaves the storage as it was.  The inherited contract [Ownable] is
    not among the sources: its storage is a parameter, and so is its test
    [isOwner], which the modifier [onlyOwner] requires of [msg.sender]. *)
Module TBTCSystem.

Definition address := Z.

Inductive Revert :=
| NotOwner                 (* the require of [onlyOwner] *)
| Reason (msg : string).   (* a require of the function *)

Section Contract.
Variable Ownable : Type.
Variable isOwner : Ownable -> address -> bool.

Record State := mkState {
  ownable : Ownable;
  _initialized : bool;
  keepRegistry : address;
  priceFeed : address;
  relay : address;
  allowNewDeposits : bool;
  signerFeeDivisor : Z;
  undercollateralizedThresholdPercent : Z;
  severelyUndercollateralizedThresholdPercent : Z
}.

(** The variables' initializers and the constructor. *)
Definition constructor (o : Ownable) (_priceFeed _relay : address) : State :=
  {| ownable := o;
     _initialized := false;
     keepRegistry := 0;
     priceFeed := _priceFeed;
     relay := _relay;
     allowNewDeposits := true;
     signerFeeDivisor := 200;
     undercollateralizedThresholdPercent := 140;
     severelyUndercollateralizedThresholdPercent := 120 |}.

Definition onlyOwner (sender : address) (st : State)
    (body : State + Revert) : State + Revert :=
  if isOwner (ownable st) sender then body else inr NotOwner.

Definition initialize (sender _keepRegistry : address) (st : State)
    : State + Revert :=
  onlyOwner sender st
    (if negb (_initialized st) then
       inl (mkState (ownable st) true _keepRegistry (priceFeed st) (relay st)
              (allowNewDeposits st) (signerFeeDivisor st)
              (undercollateralizedThresholdPercent st)
              (severelyUndercollateralizedThresholdPercent st))
     else inr (Reason "already initialized")).

Definition setAllowNewDeposits (sender : address) (_allowNewDeposits : bool)
    (st : State) : State + Revert :=
  onlyOwner sender st
    (inl (mkState (ownable st) (_initialized st) (keepRegistry st)
            (priceFeed st) (relay st) _allowNewDeposits (signerFeeDivisor st)
            (undercollateralizedThresholdPercent st)
            (severelyUndercollateralizedThresholdPercent st))).

Definition getAllowNewDeposits (st : State) : bool := allowNewDeposits st.

Definition setSignerFeeDivisor (sender : address) (_signerFeeDivisor : Z)
    (st : State) : State + Revert :=
  onlyOwner sender st
    (if 1 <? _signerFeeDivisor then
       inl (mkState (ownable st) (_initialized st) (keepRegistry st)
              (priceFeed st) (relay st) (allowNewDeposits st) _signerFeeDivisor
              (undercollateralizedThresholdPercent st)
              (severelyUndercollateralizedThresholdPercent st))
     else inr (Reason "Signer fee must be lower than 100%")).

Definition getSignerFeeDivisor (st : State) : Z := signerFeeDivisor st.

Definition setCollateralizationThresholds (sender : address)
    (_undercollateralizedThresholdPercent
     _severelyUndercollateralizedThresholdPercent : Z)
    (st : State) : State + Revert :=
  onlyOwner sender st
    (if _severelyUndercollateralizedThresholdPercent
          <? _undercollateralizedThresholdPercent then
       inl (mkState (ownable st) (_initialized st) (keepRegistry st)
              (priceFeed st) (relay st) (allowNewDeposits st)
              (signerFeeDivisor st)
              _undercollateralizedThresholdPercent
              _severelyUndercollateralizedThresholdPercent)
     else inr (Reason
       "Severe undercollateralized threshold must be > undercollateralized threshold")).

Definition getUndercollateralizedThresholdPercent (st : State) : Z :=
  undercollateralizedThresholdPercent st.

Definition getSeverelyUndercollateralizedThresholdPercent (st : State) : Z :=
  severelyUndercollateralizedThresholdPercent st.

(** A transaction on the contract: one of its four writing functions,
    or a function inherited from [Ownable], which writes the storage of
    [Ownable] only. *)
Inductive Call :=
| Initialize (_keepRegistry : address)
| SetAllowNewDeposits (_allowNewDeposits : bool)
| SetSignerFeeDivisor (_signerFeeDivisor : Z)
| SetCollateralizationThresholds (_under _severe : Z)
| Inherited (o : Ownable).

Definition with_ownable (o : Ownable) (st : State) : State :=
  mkState o (_initialized st) (keepRegistry st) (priceFeed st) (relay st)
    (allowNewDeposits st) (signerFeeDivisor st)
    (undercollateralizedThresholdPercent st)
    (severelyUndercollateralizedThresholdPercent st).

Definition exec (sender : address) (c : Call) (st : State) : State + Revert :=
  match c with
  | Initialize k => initialize sender k st
  | SetAllowNewDeposits b => setAllowNewDeposits sender b st
  | SetSignerFeeDivisor d => setSignerFeeDivisor sender d st
  | SetCollateralizationThresholds u s =>
      setCollateralizationThresholds sender u s st
  | Inherited o => inl (with_ownable o st)
  end.

(** The storage after a transaction: a revert changes nothing. *)
Definition step (st : State) (tx : address * Call) : State :=
  match exec tx.1 tx.2 st with
  | inl st' => st'
  | inr _ => st
  end.

Definition run (txs : list (address * Call)) (st : State) : State :=
  foldl step st txs.

Definition own_function (c : Call) : Prop :=
  match c with
  | Inherited _ => False
  | _ => True
  end.
(** The two requirements on the parameters. *)
Definition parameters_valid (st : State) : Prop :=
  1 < signerFeeDivisor st /\
  severelyUndercollateralizedThresholdPercent st
    < undercollateralizedThresholdPercent st.

Definition initialized_with (k : address) (st : State) : Prop :=
  _initialized st = true /\ keepRegistry st = k.
End Contract.
End TBTCSystem.

(** An [Ownable] with a single owner, for examples: the storage is the
    owner's address. *)
Definition single_owner (o sender : TBTCSystem.address) : bool :=
  bool_decide (o = sender).

(** The contract as deployed by the address 1 and initialized. *)
Definition deployed_system : TBTCSystem.State TBTCSystem.address :=
  TBTCSystem.constructor TBTCSystem.address 1 10 11.

Definition initialized_system : TBTCSystem.State TBTCSystem.address :=
  TBTCSystem.step TBTCSystem.address single_owner deployed_system
    (1, TBTCSystem.Initialize TBTCSystem.address 12).

(** Transactions of the address 2, which is not the owner, and of the
    owner. *)
Definition stranger_txs : list (TBTCSystem.address * TBTCSystem.Call TBTCSystem.address) :=
  [ (2, TBTCSystem.SetSignerFeeDivisor TBTCSystem.address 2);
    (2, TBTCSystem.SetAllowNewDeposits TBTCSystem.address false);
    (2, TBTCSystem.Initialize TBTCSystem.address 13);
    (2, TBTCSystem.SetCollateralizationThresholds TBTCSystem.address 150 110) ].

Definition owner_txs : list (TBTCSystem.address * TBTCSystem.Call TBTCSystem.address) :=
  [ (1, TBTCSystem.SetSignerFeeDivisor TBTCSystem.address 50);
    (1, TBTCSystem.Initialize TBTCSystem.address 13);
    (1, TBTCSystem.SetCollateralizationThresholds TBTCSystem.address 150 110);
    (1, TBTCSystem.SetSignerFeeDivisor TBTCSystem.address 1) ].
(** ** Header equality and copy: properties *)

Lemma to_N_inj (x y : byte) : Byte.to_N x = Byte.to_N y -> x = y.
Proof.
  intros E.
  assert (H : Byte.of_N (Byte.to_N x) = Byte.of_N (Byte.to_N y)) by (now rewrite E).
  rewrite !Byte.of_to_N in H. now inversion H.
Qed.

Lemma bytes_Compare_refl (a : list byte) : bytes_Compare a a = 0.
Proof.
  induction a as [|x a IH]; simpl; [reflexivity|].
  now rewrite N.compare_refl.
Qed.

Lemma bytes_Compare_eq (a b : list byte) : bytes_Compare a b = 0 <-> a = b.
Proof.
  split; [|intros ->; apply bytes_Compare_refl].
  revert b; induction a as [|x a IH]; intros [|y b]; simpl; try easy.
  destruct (N.compare_spec (Byte.to_N x) (Byte.to_N y)) as [E| |]; try easy.
  intros H. apply to_N_inj in E. apply IH in H. now subst.
Qed.

Definition four_fields_eq (f g : Header) : Prop :=
  Hash f = Hash g /\ Height f = Height g /\
  PrevHash f = PrevHash g /\ MerkleRoot f = MerkleRoot g.

Lemma four_fields_decide (f g : Header) :
  bool_decide (Hash f = Hash g) && bool_decide (Height f = Height g)
  && bool_decide (PrevHash f = PrevHash g)
  && bool_decide (MerkleRoot f = MerkleRoot g) = true
  <-> four_fields_eq f g.
Proof.
  unfold four_fields_eq.
  rewrite !andb_true_iff, !bool_decide_eq_true. tauto.
Qed.

Lemma headersEqual_true_iff s p q f g a b :
  deref s p = Some f -> deref s q = Some g ->
  slice_bytes s (Raw f) = Some a -> slice_bytes s (Raw g) = Some b ->
  headersEqual s p q = Some true <-> four_fields_eq f g /\ a = b.
Proof.
  intros Hp Hq Ha Hb. unfold headersEqual.
  rewrite Hp, Hq. simpl.
  destruct (bool_decide (Hash f = Hash g) && bool_decide (Height f = Height g)
            && bool_decide (PrevHash f = PrevHash g)
            && bool_decide (MerkleRoot f = MerkleRoot g)) eqn:E.
  - apply four_fields_decide in E. rewrite Ha, Hb. simpl.
    split.
    + intros H. injection H as H. apply bool_decide_eq_true in H.
      apply bytes_Compare_eq in H. tauto.
    + intros [_ ->]. f_equal. apply bool_decide_eq_true, bytes_Compare_refl.
  - split; [discriminate|].
    intros [H _]. apply four_fields_decide in H. congruence.
Qed.

Lemma Equals_true_iff s p q f g :
  deref s p = Some f -> deref s q = Some g ->
  Equals s p q = Some true <-> four_fields_eq f g.
Proof.
  intros Hp Hq. unfold Equals.
  destruct q as [l|]; [|discriminate Hq].
  rewrite Hp, Hq. simpl. rewrite <- four_fields_decide.
  split; [now intros [= ->] | now intros ->].
Qed.

(** C2, as the code has it: [headersEqual] holds exactly when the five
    fields agree, [Raw] by its bytes; the method [Equals] holds exactly
    when the four fields other than [Raw] agree, whatever [Raw] holds. *)
Theorem header_equality_fields s p q f g a b :
  deref s p = Some f -> deref s q = Some g ->
  slice_bytes s (Raw f) = Some a -> slice_bytes s (Raw g) = Some b ->
  (headersEqual s p q = Some true <->
     Hash f = Hash g /\ Height f = Height g /\ PrevHash f = PrevHash g /\
     MerkleRoot f = MerkleRoot g /\ a = b)
  /\ (Equals s p q = Some true <->
     Hash f = Hash g /\ Height f = Height g /\ PrevHash f = PrevHash g /\
     MerkleRoot f = MerkleRoot g).
Proof.
  intros Hp Hq Ha Hb. split.
  - rewrite (headersEqual_true_iff s p q f g a b) by assumption.
    unfold four_fields_eq. tauto.
  - rewrite (Equals_true_iff s p q f g) by assumption.
    unfold four_fields_eq. tauto.
Qed.

(** C10: [Equals] answers false for a nil argument, whatever the
    receiver is. *)
Theorem Equals_nil_other (s : Store) (header : hptr) :
  Equals s header None = Some false.
Proof. reflexivity. Qed.

(** C2, as claimed, fails for the method [Equals]: the two headers of
    [store_raw_differs] differ in the bytes of [Raw], [headersEqual] tells
    them apart and [Equals] does not. *)
Lemma Equals_ignores_Raw :
  exists f g a b,
    deref store_raw_differs (Some 0%nat) = Some f /\
    deref store_raw_differs (Some 1%nat) = Some g /\
    slice_bytes store_raw_differs (Raw f) = Some a /\
    slice_bytes store_raw_differs (Raw g) = Some b /\
    a <> b /\
    Equals store_raw_differs (Some 0%nat) (Some 1%nat) = Some true /\
    headersEqual store_raw_differs (Some 0%nat) (Some 1%nat) = Some false.
Proof.
  do 4 eexists. repeat split; try reflexivity. discriminate.
Qed.

Lemma header_equality_fields_witness :
  (headersEqual store_raw_differs (Some 0%nat) (Some 1%nat) = Some true <->
     Hash (header_a7 0) = Hash (header_a7 1) /\
     Height (header_a7 0) = Height (header_a7 1) /\
     PrevHash (header_a7 0) = PrevHash (header_a7 1) /\
     MerkleRoot (header_a7 0) = MerkleRoot (header_a7 1) /\
     [Byte.x01; Byte.x02] = [Byte.x01; Byte.x03])
  /\ (Equals store_raw_differs (Some 0%nat) (Some 1%nat) = Some true <->
     Hash (header_a7 0) = Hash (header_a7 1) /\
     Height (header_a7 0) = Height (header_a7 1) /\
     PrevHash (header_a7 0) = PrevHash (header_a7 1) /\
     MerkleRoot (header_a7 0) = MerkleRoot (header_a7 1)).
Proof.
  apply (header_equality_fields store_raw_differs (Some 0%nat) (Some 1%nat)
           (header_a7 0) (header_a7 1));
    reflexivity.
Defined.

(** *** [copyHeaders] *)

Lemma copyHeaders_distinct_eq s (d l : nat) hd v r :
  d <> l -> hdrs s !! d = Some hd -> hdrs s !! l = Some v ->
  slice_bytes s (Raw v) = Some r ->
  copyHeaders s (Some d) (Some l) =
    Some {| hdrs := <[d := with_Raw v (Some (length (bufs s)))]> (hdrs s);
            bufs := bufs s ++ [r] |}.
Proof.
  intros Hne Hd Hl Hr.
  assert (Hdlt : (d < length (hdrs s))%nat) by (eapply lookup_lt_Some; eauto).
  unfold copyHeaders. simpl. rewrite Hl, Hd. simpl.
  rewrite (list_lookup_insert_ne (hdrs s) d l v) by done. rewrite Hl. simpl.
  change (slice_bytes (set_header s d v) (Raw v)) with (slice_bytes s (Raw v)).
  rewrite Hr. simpl.
  rewrite (list_lookup_insert_eq (hdrs s) d v) by done. simpl.
  set (h' := with_Raw v (Some (length (bufs s)))).
  rewrite (list_lookup_insert_eq (<[d:=v]> (hdrs s)) d h') by (by rewrite length_insert).
  simpl.
  rewrite (list_lookup_insert_ne (<[d:=v]> (hdrs s)) d l h') by done.
  rewrite (list_lookup_insert_ne (hdrs s) d l v) by done. rewrite Hl. simpl.
  unfold copy_bytes. simpl.
  rewrite lookup_app_r by done. rewrite Nat.sub_diag. simpl.
  assert (Hr' : slice_bytes (set_header
       {| hdrs := <[d:=v]> (hdrs s);
          bufs := bufs s ++ [replicate (length r) Byte.x00] |} d h') (Raw v) = Some r).
  { destruct (Raw v) as [b|]; simpl in *; [|done].
    by rewrite lookup_app_l_Some with (x:=r). }
  rewrite Hr'. simpl.
  rewrite length_replicate, Nat.min_id.
  rewrite firstn_all, drop_replicate, Nat.sub_diag. simpl. rewrite app_nil_r.
  unfold set_buf, set_header. simpl. f_equal. f_equal.
  - by rewrite list_insert_insert_eq.
  - rewrite insert_app_r_alt by done. rewrite Nat.sub_diag. done.
Qed.

Lemma slice_bytes_grow s s' sl r :
  (forall b x, bufs s !! b = Some x -> bufs s' !! b = Some x) ->
  slice_bytes s sl = Some r -> slice_bytes s' sl = Some r.
Proof. intros H. destruct sl as [b|]; simpl; [apply H | done]. Qed.

Lemma copyHeaders_distinct s (d l : nat) hd v r :
  d <> l -> hdrs s !! d = Some hd -> hdrs s !! l = Some v ->
  slice_bytes s (Raw v) = Some r ->
  exists s' b,
    copyHeaders s (Some d) (Some l) = Some s'
    /\ headersEqual s' (Some d) (Some l) = Some true
    /\ deref s' (Some d) = Some (with_Raw v (Some b))
    /\ bufs s !! b = None
    /\ bufs s' !! b = Some r
    /\ deref s' (Some l) = Some v
    /\ slice_bytes s' (Raw v) = Some r
    /\ (forall b' x, bufs s !! b' = Some x -> bufs s' !! b' = Some x).
Proof.
  intros Hne Hd Hl Hr.
  assert (Hdlt : (d < length (hdrs s))%nat) by (eapply lookup_lt_Some; eauto).
  eexists _, (length (bufs s)).
  split; [eapply copyHeaders_distinct_eq; eauto|].
  set (s' := {| hdrs := _; bufs := _ |}).
  assert (Hgrow : forall b' x, bufs s !! b' = Some x -> bufs s' !! b' = Some x).
  { intros b' x Hb. simpl. by rewrite lookup_app_l_Some with (x:=x). }
  assert (Hd' : deref s' (Some d) = Some (with_Raw v (Some (length (bufs s))))).
  { simpl. by rewrite list_lookup_insert_eq. }
  assert (Hl' : deref s' (Some l) = Some v).
  { simpl. by rewrite list_lookup_insert_ne. }
  assert (Hb' : bufs s' !! length (bufs s) = Some r).
  { simpl. rewrite lookup_app_r by done. by rewrite Nat.sub_diag. }
  assert (Hr' : slice_bytes s' (Raw v) = Some r) by (eapply slice_bytes_grow; eauto).
  repeat split; try assumption.
  - apply (headersEqual_true_iff s' (Some d) (Some l) _ _ r r Hd' Hl'); try assumption.
    unfold four_fields_eq; simpl; tauto.
  - by apply lookup_ge_None.
Qed.

(** C9, for two different headers: [copyHeaders] makes [dest] equal to
    [src] under [headersEqual]; [dest.Raw] is a buffer that did not exist
    before, with the length and contents of [src.Raw]; [src], its bytes
    and every other buffer are left as they were. *)
Theorem copyHeaders_fresh_copy s (d l : nat) hd v r :
  d <> l -> hdrs s !! d = Some hd -> hdrs s !! l = Some v ->
  slice_bytes s (Raw v) = Some r ->
  exists s' b,
    copyHeaders s (Some d) (Some l) = Some s'
    /\ headersEqual s' (Some d) (Some l) = Some true
    /\ deref s' (Some d) = Some (with_Raw v (Some b))
    /\ bufs s !! b = None
    /\ bufs s' !! b = Some r
    /\ deref s' (Some l) = Some v
    /\ slice_bytes s' (Raw v) = Some r
    /\ (forall b' x, bufs s !! b' = Some x -> bufs s' !! b' = Some x).
Proof. apply copyHeaders_distinct. Qed.

Lemma copyHeaders_fresh_copy_witness :
  exists s' b,
    copyHeaders store_two_headers (Some 1%nat) (Some 0%nat) = Some s'
    /\ headersEqual s' (Some 1%nat) (Some 0%nat) = Some true
    /\ deref s' (Some 1%nat) = Some (with_Raw (header_a7 0) (Some b))
    /\ bufs store_two_headers !! b = None
    /\ bufs s' !! b = Some [Byte.x01; Byte.x02]
    /\ deref s' (Some 0%nat) = Some (header_a7 0)
    /\ slice_bytes s' (Raw (header_a7 0)) = Some [Byte.x01; Byte.x02]
    /\ (forall b' x, bufs store_two_headers !! b' = Some x -> bufs s' !! b' = Some x).
Proof.
  apply (copyHeaders_fresh_copy store_two_headers 1%nat 0%nat zeroHeader);
    [lia | reflexivity | reflexivity | reflexivity].
Defined.

(** C9, as claimed for every pair, fails when [dest] and [src] are the
    same header: the assignment of the new zeroed buffer to [dest.Raw]
    is an assignment to [src.Raw], and the header's two bytes are lost. *)
Lemma copyHeaders_same_header_loses_Raw :
  exists v s' v',
    deref store_one_header (Some 0%nat) = Some v /\
    slice_bytes store_one_header (Raw v) = Some [Byte.x01; Byte.x02] /\
    copyHeaders store_one_header (Some 0%nat) (Some 0%nat) = Some s' /\
    deref s' (Some 0%nat) = Some v' /\
    v' <> v /\
    slice_bytes s' (Raw v') = Some [Byte.x00; Byte.x00].
Proof.
  do 3 eexists. repeat split; try reflexivity. discriminate.
Qed.

(** ** Ancestor discovery *)

Section DiscoveryProperties.
Context {W : Type}.
Context {btcChain : BtcHandle W} {hostChain : ChainHandle W}.
Context {rt : Runtime W} {helpers : Helpers W}.

Lemma callGetHeaderByDigest_Done d (m : Machine W) :
  exists r m1, callGetHeaderByDigest d m = Done r m1
               /\ trace m1 = trace m /\ fwd m1 = fwd m.
Proof.
  unfold callGetHeaderByDigest.
  destruct (GetHeaderByDigest d (store m) (world m)) as [[r s] w].
  by eexists _, _.
Qed.

Lemma callGetHeaderByHeight_Done h (m : Machine W) :
  exists r m1, callGetHeaderByHeight h m = Done r m1
               /\ trace m1 = trace m /\ fwd m1 = fwd m.
Proof.
  unfold callGetHeaderByHeight.
  destruct (GetHeaderByHeight h (store m) (world m)) as [[r s] w].
  by eexists _, _.
Qed.

Lemma callGetBlockCount_Done (m : Machine W) :
  exists r m1, callGetBlockCount m = Done r m1
               /\ trace m1 = trace m /\ fwd m1 = fwd m /\ store m1 = store m.
Proof.
  unfold callGetBlockCount.
  destruct (GetBlockCount (world m)) as [r w].
  by eexists _, _.
Qed.

Lemma callGetBestKnownDigest_Done (m : Machine W) :
  exists r m1, callGetBestKnownDigest m = Done r m1
               /\ trace m1 = trace m /\ fwd m1 = fwd m /\ store m1 = store m.
Proof.
  unfold callGetBestKnownDigest.
  destruct (GetBestKnownDigest (world m)) as [r w].
  by eexists _, _.
Qed.

(** One execution of the loop body, as an equation. *)
Lemma findBestBlock_for_unfold fuel best better (m : Machine W) :
  findBestBlock_for fuel best better m =
  match headersEqual (store m) best better with
  | None => Panic m
  | Some true => Done (Ok best) m
  | Some false =>
      match fuel with
      | O => Running m
      | S fuel' =>
          match deref (store m) best with
          | None => Panic m
          | Some b =>
              match callGetHeaderByDigest (PrevHash b) m with
              | Done (Ok best') m1 =>
                  match deref (store m1) best' with
                  | None => Panic m1
                  | Some b' =>
                      match callGetHeaderByHeight (Height b') m1 with
                      | Done (Ok better') m2 =>
                          findBestBlock_for fuel' best' better' m2
                      | Done (Err e) m2 => Done (Err e) m2
                      | Panic m2 => Panic m2
                      | Running m2 => Running m2
                      end
                  end
              | Done (Err e) m1 => Done (Err e) m1
              | Panic m1 => Panic m1
              | Running m1 => Running m1
              end
          end
      end
  end.
Proof.
  destruct fuel; simpl; unfold bind, headersEqualM;
    destruct (headersEqual (store m) best better) as [[|]|]; try reflexivity.
  unfold try_bind, bind, load, ret.
  destruct (deref (store m) best) as [b|]; [|reflexivity].
  destruct (callGetHeaderByDigest (PrevHash b) m) as [[best'|e] m1|m1|m1];
    try reflexivity.
  destruct (deref (store m1) best') as [b'|]; [|reflexivity].
  destruct (callGetHeaderByHeight (Height b') m1) as [[better'|e] m2|m2|m2];
    reflexivity.
Qed.

Lemma findBestBlock_for_sound fuel :
  forall best better (m : Machine W) r m',
    findBestBlock_for fuel best better m = Done r m' ->
    ancestor_walk best better m r m'.
Proof.
  induction fuel as [|fuel IH]; intros best better m r m';
    rewrite findBestBlock_for_unfold;
    destruct (headersEqual (store m) best better) as [[|]|] eqn:Heq;
    try discriminate.
  - intros [= <- <-]. by constructor.
  - intros [= <- <-]. by constructor.
  - destruct (deref (store m) best) as [b|] eqn:Hb; [|discriminate].
    destruct (callGetHeaderByDigest (PrevHash b) m)
      as [[best'|e] m1|m1|m1] eqn:Hd; try discriminate.
    + destruct (deref (store m1) best') as [b'|] eqn:Hb'; [|discriminate].
      destruct (callGetHeaderByHeight (Height b') m1)
        as [[better'|e] m2|m2|m2] eqn:Hh; try discriminate.
      * intros Hrec. eapply walk_back; eauto.
      * intros [= <- <-]. eapply walk_canonical_fails; eauto.
    + intros [= <- <-]. eapply walk_parent_fails; eauto.
Qed.

Lemma findBestBlock_for_complete best better (m : Machine W) r m' :
  ancestor_walk best better m r m' ->
  exists fuel, forall fuel', (fuel <= fuel')%nat ->
    findBestBlock_for fuel' best better m = Done r m'.
Proof.
  induction 1 as
    [candidate canonical m Heq
    |candidate canonical m c parent m1 p canonical' m2 r m3 Heq Hc Hd Hp Hh _ [fuel IH]
    |candidate canonical m c e m1 Heq Hc Hd
    |candidate canonical m c parent m1 p e m2 Heq Hc Hd Hp Hh].
  - exists O. intros fuel' _. rewrite findBestBlock_for_unfold. by rewrite Heq.
  - exists (S fuel). intros [|fuel'] Hle; [lia|].
    rewrite findBestBlock_for_unfold, Heq, Hc, Hd, Hp, Hh.
    apply IH. lia.
  - exists 1%nat. intros [|fuel'] Hle; [lia|].
    rewrite findBestBlock_for_unfold. by rewrite Heq, Hc, Hd.
  - exists 1%nat. intros [|fuel'] Hle; [lia|].
    rewrite findBestBlock_for_unfold. by rewrite Heq, Hc, Hd, Hp, Hh.
Qed.

Lemma findBestBlock_unfold fuel (m : Machine W) :
  findBestBlock fuel m =
  match callGetBestKnownDigest m with
  | Done (Ok digest) m1 =>
      match callGetHeaderByDigest digest m1 with
      | Done (Ok best) m2 =>
          match deref (store m2) best with
          | None => Panic m2
          | Some b =>
              match callGetHeaderByHeight (Height b) m2 with
              | Done (Ok better) m3 => findBestBlock_for fuel best better m3
              | Done (Err e) m3 => Done (Err e) m3
              | Panic m3 => Panic m3
              | Running m3 => Running m3
              end
          end
      | Done (Err e) m2 => Done (Err e) m2
      | Panic m2 => Panic m2
      | Running m2 => Running m2
      end
  | Done (Err e) m1 => Done (Err e) m1
  | Panic m1 => Panic m1
  | Running m1 => Running m1
  end.
Proof.
  unfold findBestBlock, try_bind, bind, load, ret.
  destruct (callGetBestKnownDigest m) as [[digest|e] m1|m1|m1]; try reflexivity.
  destruct (callGetHeaderByDigest digest m1) as [[best|e] m2|m2|m2];
    try reflexivity.
  destruct (deref (store m2) best) as [b|]; [|reflexivity].
  destruct (callGetHeaderByHeight (Height b) m2) as [[better|e] m3|m3|m3];
    reflexivity.
Qed.

(** C3: [findBestBlock] returns a result exactly when the discovery the
    spec describes yields it: the host chain's best digest is resolved
    to a candidate (an unknown digest, like any failed call, is
    returned as the error), the candidate steps back along [PrevHash]
    while it differs from the canonical header at its height, and the
    surviving candidate is returned. *)
Theorem findBestBlock_refines_discovery (m : Machine W) r m' :
  ancestor_discovery m r m' <->
  exists fuel, forall fuel', (fuel <= fuel')%nat ->
    findBestBlock fuel' m = Done r m'.
Proof.
  split.
  - destruct 1 as
      [m e m1 H1
      |m d m1 e m2 H1 H2
      |m d m1 candidate m2 c e m3 H1 H2 Hc H3
      |m d m1 candidate m2 c canonical m3 r m4 H1 H2 Hc H3 Hw].
    + exists O. intros fuel' _. rewrite findBestBlock_unfold. by rewrite H1.
    + exists O. intros fuel' _. rewrite findBestBlock_unfold. by rewrite H1, H2.
    + exists O. intros fuel' _. rewrite findBestBlock_unfold.
      by rewrite H1, H2, Hc, H3.
    + destruct (findBestBlock_for_complete _ _ _ _ _ Hw) as [fuel Hf].
      exists fuel. intros fuel' Hle. rewrite findBestBlock_unfold.
      rewrite H1, H2, Hc, H3. by apply Hf.
  - intros [fuel Hf]. specialize (Hf fuel (Nat.le_refl _)).
    rewrite findBestBlock_unfold in Hf.
    destruct (callGetBestKnownDigest m) as [[d|e] m1|m1|m1] eqn:H1;
      try discriminate.
    + destruct (callGetHeaderByDigest d m1) as [[best|e] m2|m2|m2] eqn:H2;
        try discriminate.
      * destruct (deref (store m2) best) as [b|] eqn:Hb; [|discriminate].
        destruct (callGetHeaderByHeight (Height b) m2)
          as [[better|e] m3|m3|m3] eqn:H3; try discriminate.
        -- eapply discovery_walk; eauto using findBestBlock_for_sound.
        -- injection Hf as <- <-. eapply discovery_canonical_fails; eauto.
      * injection Hf as <- <-. eapply discovery_digest_unknown; eauto.
    + injection Hf as <- <-. by eapply discovery_no_digest.
Qed.

Lemma findBestBlock_for_trace fuel :
  forall best better (m : Machine W),
    trace (final (findBestBlock_for fuel best better m)) = trace m.
Proof.
  induction fuel as [|fuel IH]; intros best better m;
    rewrite findBestBlock_for_unfold;
    destruct (headersEqual (store m) best better) as [[|]|]; try reflexivity.
  destruct (deref (store m) best) as [b|]; [|reflexivity].
  destruct (callGetHeaderByDigest_Done (PrevHash b) m) as (r & m1 & -> & Ht1 & _).
  destruct r as [best'|e]; [|done].
  destruct (deref (store m1) best') as [b'|]; [|done].
  destruct (callGetHeaderByHeight_Done (Height b') m1) as (r & m2 & -> & Ht2 & _).
  destruct r as [better'|e]; [|simpl; congruence].
  rewrite IH. congruence.
Qed.

Lemma findBestBlock_trace fuel (m : Machine W) :
  trace (final (findBestBlock fuel m)) = trace m.
Proof.
  rewrite findBestBlock_unfold.
  destruct (callGetBestKnownDigest_Done m) as (r & m1 & -> & Ht1 & _).
  destruct r as [d|e]; [|done].
  destruct (callGetHeaderByDigest_Done d m1) as (r & m2 & -> & Ht2 & _).
  destruct r as [best|e]; [|simpl; congruence].
  destruct (deref (store m2) best) as [b|]; [|simpl; congruence].
  destruct (callGetHeaderByHeight_Done (Height b) m2) as (r & m3 & -> & Ht3 & _).
  destruct r as [better|e]; [|simpl; congruence].
  rewrite findBestBlock_for_trace. congruence.
Qed.

Lemma headersEqual_nil_first s best better :
  deref s best = None -> headersEqual s best better = None.
Proof. intros H. unfold headersEqual. by rewrite H. Qed.

Section Termination.
(** The candidates the walk can be at, with the machine they are in. *)
Variable Inv : hptr -> Machine W -> Prop.

(** A step back reaches such a candidate again, of a height that is
    not negative and is smaller than the height stepped back from. *)
Hypothesis step_back_decreases :
  forall best (m : Machine W) b best' m1 b' better' m2,
    Inv best m ->
    deref (store m) best = Some b ->
    callGetHeaderByDigest (PrevHash b) m = Done (Ok best') m1 ->
    deref (store m1) best' = Some b' ->
    callGetHeaderByHeight (Height b') m1 = Done (Ok better') m2 ->
    Inv best' m2 /\
    forall b2, deref (store m2) best' = Some b2 ->
               0 <= Height b2 < Height b.

Lemma findBestBlock_for_bounded (k : nat) :
  forall best better (m : Machine W) b,
    Inv best m -> deref (store m) best = Some b ->
    0 <= Height b -> (Z.to_nat (Height b) < k)%nat ->
    forall fuel, (k <= fuel)%nat ->
      terminated (findBestBlock_for fuel best better m) /\
      findBestBlock_for fuel best better m = findBestBlock_for k best better m.
Proof.
  induction k as [|k IH]; intros best better m b HI Hb Hnn Hlt fuel Hle; [lia|].
  destruct fuel as [|fuel]; [lia|].
  rewrite !(findBestBlock_for_unfold (S _)).
  destruct (headersEqual (store m) best better) as [[|]|]; [done|..|done].
  rewrite Hb.
  destruct (callGetHeaderByDigest (PrevHash b) m)
    as [[best'|e] m1|m1|m1] eqn:Hd; [|done|done|].
  2:{ destruct (callGetHeaderByDigest_Done (PrevHash b) m) as (?&?&E&_).
      congruence. }
  destruct (deref (store m1) best') as [b'|] eqn:Hb'; [|done].
  destruct (callGetHeaderByHeight (Height b') m1)
    as [[better'|e] m2|m2|m2] eqn:Hh; [|done|done|].
  2:{ destruct (callGetHeaderByHeight_Done (Height b') m1) as (?&?&E&_).
      congruence. }
  destruct (step_back_decreases _ _ _ _ _ _ _ _ HI Hb Hd Hb' Hh) as [HI' Hdec].
  destruct (deref (store m2) best') as [b2|] eqn:Hb2.
  - apply (IH best' better' m2 b2); try done.
    + specialize (Hdec b2 eq_refl). lia.
    + specialize (Hdec b2 eq_refl). lia.
    + lia.
  - rewrite !findBestBlock_for_unfold.
    by rewrite (headersEqual_nil_first _ _ _ Hb2).
Qed.

(** C6: when every step back leads to a header of a smaller height
    that is not negative, the loop of [findBestBlock] ends within
    [candidate.Height + 1] executions of its body: that much fuel is
    enough, and more fuel changes nothing. *)
Theorem findBestBlock_loop_terminates best better (m : Machine W) b :
  Inv best m -> deref (store m) best = Some b -> 0 <= Height b ->
  forall fuel, (Z.to_nat (Height b + 1) <= fuel)%nat ->
    terminated (findBestBlock_for fuel best better m) /\
    findBestBlock_for fuel best better m =
      findBestBlock_for (Z.to_nat (Height b + 1)) best better m.
Proof.
  intros HI Hb Hnn fuel Hle.
  apply (findBestBlock_for_bounded _ best better m b); try done. lia.
Qed.
End Termination.
End DiscoveryProperties.

(** ** The loops: what the primitive operations leave behind *)

Section LoopProperties.
Context {W : Type}.
Context {btcChain : BtcHandle W} {hostChain : ChainHandle W}.
Context {rt : Runtime W} {helpers : Helpers W}.

Lemma yield_trace (m : Machine W) : trace (yield m) = trace m.
Proof. unfold yield. by destruct (interfere (fwd m) (world m)). Qed.

Lemma yield_store (m : Machine W) : store (yield m) = store m.
Proof. unfold yield. by destruct (interfere (fwd m) (world m)). Qed.

(** A blocking operation ends with an attempt that went through, made
    after the other parties acted some number of times, or is still
    parked. *)
Lemma blocking_cases {A : Type} fuel (attempt : Machine W -> option (Res W A)) :
  forall m, exists m',
    trace m' = trace m /\ store m' = store m /\
    (attempt m' = Some (blocking fuel attempt m) \/
     (attempt m' = None /\ blocking fuel attempt m = Running m')).
Proof.
  induction fuel as [|fuel IH]; intros m; simpl.
  - exists (yield m). rewrite yield_trace, yield_store.
    destruct (attempt (yield m)); eauto.
  - destruct (attempt (yield m)) eqn:E.
    + exists (yield m). rewrite yield_trace, yield_store, E. eauto.
    + destruct (IH (yield m)) as (m' & Ht & Hs & H).
      exists m'. by rewrite Ht, Hs, yield_trace, yield_store.
Qed.

Lemma sendHeader_cases fuel p (m : Machine W) :
  (exists m', sendHeader fuel p m = Done tt m' /\
              trace m' = trace m ++ [EvEnqueue p (deref (store m) p)] /\
              store m' = store m) \/
  (exists m', (sendHeader fuel p m = Panic m' \/ sendHeader fuel p m = Running m') /\
              trace m' = trace m /\ store m' = store m).
Proof.
  unfold sendHeader.
  destruct (blocking_cases fuel (trySendHeader p) m) as (m' & Ht & Hs & [H|[_ H]]).
  - unfold trySendHeader in H.
    destruct (chan_send (headersQueue (fwd m')) p); [| discriminate |].
    + left. eexists. split; [by injection H|]. simpl. by rewrite Ht, Hs.
    + right. exists m'. split; [left; by injection H | done].
  - right. exists m'. eauto.
Qed.

Lemma sendError_cases fuel e (m : Machine W) :
  (exists m', sendError fuel e m = Done tt m' /\
              trace m' = trace m ++ [EvReport e] /\ store m' = store m) \/
  (exists m', (sendError fuel e m = Panic m' \/ sendError fuel e m = Running m') /\
              trace m' = trace m /\ store m' = store m).
Proof.
  unfold sendError.
  destruct (blocking_cases fuel (trySendError e) m) as (m' & Ht & Hs & [H|[_ H]]).
  - unfold trySendError in H.
    destruct (chan_send (errChan (fwd m')) e); [| discriminate |].
    + left. eexists. split; [by injection H|]. simpl. by rewrite Ht, Hs.
    + right. exists m'. split; [left; by injection H | done].
  - right. exists m'. eauto.
Qed.

Lemma take_case_trace c (m : Machine W) : trace (take_case c m) = trace m.
Proof. by destruct c. Qed.

Lemma take_case_store c (m : Machine W) : store (take_case c m) = store m.
Proof. by destruct c. Qed.

Lemma choose_Some cs (m : Machine W) c m' :
  choose cs m = Some (c, m') ->
  trace m' = trace m /\ store m' = store m /\ c ∈ cs.
Proof.
  unfold choose. destruct cs as [|c0 cs]; [discriminate|].
  remember (c0 :: cs) as l eqn:El.
  destruct (pick (length l) (world m)) as [k w].
  intros [= <- <-]. rewrite take_case_trace, take_case_store.
  repeat split.
  apply list_elem_of_In, nth_In, Nat.mod_upper_bound. by subst l.
Qed.

Lemma selectCancel_cases (m : Machine W) :
  (exists m', selectCancel m = Done None m' /\
              trace m' = trace m /\ store m' = store m) \/
  (exists c m', selectCancel m = Done (Some c) m' /\
                trace m' = trace m ++ [EvCancelled c] /\ store m' = store m).
Proof.
  unfold selectCancel.
  destruct (choose (ready_cases None (yield m)) (yield m)) as [[c m2]|] eqn:E.
  - right. exists c, (log (EvCancelled c) m2). split; [done|].
    apply choose_Some in E as (Ht & Hs & _). simpl.
    by rewrite Ht, Hs, yield_trace, yield_store.
  - left. exists (yield m). by rewrite yield_trace, yield_store.
Qed.

Lemma sleepSelect_cases fuel d (m : Machine W) :
  (exists c m', sleepSelect fuel d m = Done tt m' /\
                trace m' = trace m ++ [EvSleep d; EvWake c] /\
                store m' = store m) \/
  (exists m', sleepSelect fuel d m = Running m' /\
              trace m' = trace m ++ [EvSleep d] /\ store m' = store m).
Proof.
  unfold sleepSelect.
  destruct (blocking_cases fuel (tryWake d) (log (EvSleep d) m))
    as (m' & Ht & Hs & [H|[_ H]]).
  - unfold tryWake in H.
    destruct (choose (ready_cases (Some d) m') m') as [[c m2]|] eqn:E;
      [|discriminate].
    left. exists c, (log (EvWake c) m2). split; [by injection H|].
    apply choose_Some in E as (Ht2 & Hs2 & _). simpl.
    rewrite Ht2, Hs2, Ht, Hs. simpl. by rewrite <- app_assoc.
  - right. exists m'. by rewrite Ht, Hs.
Qed.

Lemma enqueued_app t t' : enqueued (t ++ t') = enqueued t ++ enqueued t'.
Proof. apply omap_app. Qed.

(** One iteration of the pulling loop, as an equation. *)
Lemma pullingLoop_for_unfold fuel L la (m : Machine W) :
  pullingLoop_for (S fuel) L la m =
  match selectCancel m with
  | Done (Some _) m1 => Done tt m1
  | Done None m1 =>
      match callGetBlockCount m1 with
      | Done (Err err) m2 => sendError fuel (Errorf fmt_block_count err) m2
      | Done (Ok chainHeight) m2 =>
          if L <=? chainHeight then
            match callGetHeaderByHeight L m2 with
            | Done (Err err) m3 =>
                sendError fuel (ErrorfAt fmt_header_by_height L err) m3
            | Done (Ok newHeader) m3 =>
                match headersEqual (store m3) newHeader la with
                | None => Panic m3
                | Some true => pullingLoop_for fuel L la m3
                | Some false =>
                    match sendHeader fuel newHeader m3 with
                    | Done _ m4 =>
                        match copyHeaders (store m4) la newHeader with
                        | Some s =>
                            pullingLoop_for fuel (add64 L 1) la
                              (mkMachine s (fwd m4) (world m4) (trace m4))
                        | None => Panic m4
                        end
                    | Panic m4 => Panic m4
                    | Running m4 => Running m4
                    end
                end
            | Panic m3 => Panic m3
            | Running m3 => Running m3
            end
          else
            match sleepSelect fuel forwarderPullingSleepTime m2 with
            | Done _ m3 => pullingLoop_for fuel L la m3
            | Panic m3 => Panic m3
            | Running m3 => Running m3
            end
      | Panic m2 => Panic m2
      | Running m2 => Running m2
      end
  | Panic m1 => Panic m1
  | Running m1 => Running m1
  end.
Proof.
  simpl. unfold bind, ret.
  destruct (selectCancel m) as [[c|] m1|m1|m1]; try reflexivity.
  destruct (callGetBlockCount m1) as [[ch|e] m2|m2|m2]; try reflexivity.
  destruct (L <=? ch); [|reflexivity].
  destruct (callGetHeaderByHeight L m2) as [[p|e] m3|m3|m3]; try reflexivity.
  unfold headersEqualM.
  destruct (headersEqual (store m3) p la) as [[|]|]; try reflexivity.
  simpl.
  destruct (sendHeader fuel p m3) as [[] m4|m4|m4]; try reflexivity.
  unfold copyHeadersM.
  destruct (copyHeaders (store m4) la p); reflexivity.
Qed.

Lemma headersEqual_Some_deref s p q b :
  headersEqual s p q = Some b -> exists h, deref s p = Some h.
Proof.
  unfold headersEqual. destruct (deref s p) as [h|]; [eauto|discriminate].
Qed.

Lemma callGetHeaderByHeight_served n (m : Machine W) p m' h :
  callGetHeaderByHeight n m = Done (Ok p) m' ->
  deref (store m') p = Some h -> served_by_node n h.
Proof.
  unfold callGetHeaderByHeight.
  destruct (GetHeaderByHeight n (store m) (world m)) as [[r s'] w'] eqn:E.
  intros [= -> <-] Hd. simpl in Hd. by exists (store m), (world m), p, s', w'.
Qed.

(** The headers the pulling loop enqueues are the node's answers for
    the heights [L], [L + 1], ..., in this order. *)
Lemma pullingLoop_for_served fuel :
  forall L la (m : Machine W),
  exists l,
    enqueued (trace (final (pullingLoop_for fuel L la m))) =
      enqueued (trace m) ++ l
    /\ served_from served_by_node L l.
Proof.
  induction fuel as [|fuel IH]; intros L la m.
  { exists []. simpl. rewrite app_nil_r. split; [done | constructor]. }
  rewrite pullingLoop_for_unfold.
  assert (Hnil : forall r : Res W unit,
             enqueued (trace (final r)) = enqueued (trace m) ->
             exists l, enqueued (trace (final r)) = enqueued (trace m) ++ l
                       /\ served_from served_by_node L l).
  { intros r Hr. exists []. rewrite app_nil_r. split; [done | constructor]. }
  destruct (selectCancel_cases m) as [(m1 & -> & Ht1 & _)|(c & m1 & -> & Ht1 & _)].
  2:{ apply Hnil. simpl. rewrite Ht1, enqueued_app. simpl. by rewrite app_nil_r. }
  destruct (callGetBlockCount_Done m1) as (r & m2 & -> & Ht2 & _).
  assert (Hq : forall e, enqueued (trace (final (sendError fuel e m2))) =
                         enqueued (trace m)).
  { intros e.
    destruct (sendError_cases fuel e m2)
      as [(m' & -> & Ht & _)|(m' & [-> | ->] & Ht & _)]; simpl;
      rewrite Ht, ?enqueued_app, Ht2, Ht1; simpl; by rewrite ?app_nil_r. }
  destruct r as [ch|e]; [|by apply Hnil].
  destruct (L <=? ch).
  - destruct (callGetHeaderByHeight_Done L m2) as (r & m3 & Hcall & Ht3 & _).
    rewrite Hcall.
    destruct r as [p|e].
    2:{ apply Hnil.
        destruct (sendError_cases fuel (ErrorfAt fmt_header_by_height L e) m3)
          as [(m' & -> & Ht & _)|(m' & [-> | ->] & Ht & _)]; simpl;
          rewrite Ht, ?enqueued_app, Ht3, Ht2, Ht1; simpl; by rewrite ?app_nil_r. }
    destruct (headersEqual (store m3) p la) as [[|]|] eqn:Heq.
    + destruct (IH L la m3) as (l & Hl & Hs).
      exists l. by rewrite Hl, Ht3, Ht2, Ht1.
    + destruct (headersEqual_Some_deref _ _ _ _ Heq) as [h Hh].
      pose proof (callGetHeaderByHeight_served _ _ _ _ _ Hcall Hh) as Hserved.
      destruct (sendHeader_cases fuel p m3)
        as [(m4 & -> & Ht4 & Hs4)|(m4 & [-> | ->] & Ht4 & _)].
      * rewrite Hh in Ht4.
        destruct (copyHeaders (store m4) la p) as [s|].
        -- destruct (IH (add64 L 1) la (mkMachine s (fwd m4) (world m4) (trace m4)))
             as (l & Hl & Hs).
           exists (h :: l). split; [|by constructor].
           rewrite Hl. simpl. rewrite Ht4, enqueued_app, Ht3, Ht2, Ht1. simpl.
           by rewrite <- app_assoc.
        -- exists [h]. split; [|repeat constructor; done].
           simpl. by rewrite Ht4, enqueued_app, Ht3, Ht2, Ht1.
      * apply Hnil. simpl. by rewrite Ht4, Ht3, Ht2, Ht1.
      * apply Hnil. simpl. by rewrite Ht4, Ht3, Ht2, Ht1.
    + apply Hnil. simpl. by rewrite Ht3, Ht2, Ht1.
  - destruct (sleepSelect_cases fuel forwarderPullingSleepTime m2)
      as [(c & m3 & -> & Ht3 & _)|(m3 & -> & Ht3 & _)].
    + destruct (IH L la m3) as (l & Hl & Hs).
      exists l. split; [|done].
      rewrite Hl, Ht3, enqueued_app, Ht2, Ht1. simpl. by rewrite app_nil_r.
    + apply Hnil. simpl. rewrite Ht3, enqueued_app, Ht2, Ht1. simpl.
      by rewrite app_nil_r.
Qed.
End LoopProperties.

(** ** The pulling loop *)

Lemma wrap64_range z : in_int64 (wrap64 z).
Proof.
  unfold in_int64, wrap64, min_int64, max_int64.
  pose proof (Z.mod_pos_bound (z + 2 ^ 63) (2 ^ 64) eq_refl). lia.
Qed.

Lemma wrap64_small z : in_int64 z -> wrap64 z = z.
Proof.
  unfold in_int64, wrap64, min_int64, max_int64. intros H.
  rewrite Z.mod_small; lia.
Qed.

Lemma add64_no_overflow z : min_int64 <= z < max_int64 -> add64 z 1 = z + 1.
Proof.
  intros H. apply wrap64_small. unfold in_int64, min_int64, max_int64 in *. lia.
Qed.

Lemma served_from_range P L l :
  in_int64 L -> served_from P L l ->
  served_from (fun n h => in_int64 n /\ P n h) L l.
Proof.
  intros HL H. induction H as [L|L h l HP _ IH]; constructor; [done|].
  apply IH, wrap64_range.
Qed.

Lemma served_from_adjacent P L l :
  served_from P L l ->
  forall i x y, l !! i = Some x -> l !! S i = Some y ->
    exists n, P n x /\ P (add64 n 1) y.
Proof.
  induction 1 as [L|L h l HP Hs IH]; intros i x y Hx Hy; [done|].
  destruct i as [|i]; simpl in *.
  - injection Hx as <-. inversion Hs as [|L' h' l' HP' Hs' E1 E2]; subst; [done|].
    injection Hy as <-. eauto.
  - eauto.
Qed.

Lemma served_from_first P L l h : served_from P L l -> l !! 0%nat = Some h -> P L h.
Proof. destruct 1; [done|]. by intros [= <-]. Qed.

Section PullerProperties.
Context {W : Type}.
Context {btcChain : BtcHandle W} {hostChain : ChainHandle W}.
Context {rt : Runtime W} {helpers : Helpers W}.

(** [pullingLoop] after a successful discovery, as an equation. *)
Lemma pullingLoop_unfold fuel (m : Machine W) :
  pullingLoop fuel m =
  match findBestBlock fuel m with
  | Done (Err err) m1 => sendError fuel (Errorf fmt_find_best_block err) m1
  | Done (Ok latestHeader) m1 =>
      match deref (store m1) latestHeader with
      | None => Panic m1
      | Some h =>
          pullingLoop_for fuel (add64 (Height h) 1)
            (Some (length (hdrs (store m1))))
            (mkMachine (new_header (store m1) zeroHeader).2
               (fwd m1) (world m1) (trace m1))
      end
  | Panic m1 => Panic m1
  | Running m1 => Running m1
  end.
Proof.
  unfold pullingLoop, bind, load, newZeroHeader.
  destruct (findBestBlock fuel m) as [[p|e] m1|m1|m1]; try reflexivity.
  destruct (deref (store m1) p); reflexivity.
Qed.

(** C1, as the code has it.  When the Bitcoin node answers a request
    for a height with a header of that height, the first header the
    puller enqueues has the height after the discovered ancestor's and
    every further one the height after its predecessor's (an int64
    addition of one).  [PrevHash] is linked to the predecessor's [Hash]
    when, moreover, the node's answers carry the hashes of one chain
    that is linked in this way; the puller checks neither. *)
Theorem enqueued_headers_follow_node fuel (m : Machine W) ancestor a m0 :
  (forall n s (w : W) p s' w',
      GetHeaderByHeight n s w = (Ok p, s', w') ->
      forall h, deref s' p = Some h -> Height h = n) ->
  findBestBlock fuel m = Done (Ok ancestor) m0 ->
  deref (store m0) ancestor = Some a ->
  exists l,
    enqueued (trace (final (pullingLoop fuel m))) = enqueued (trace m) ++ l
    /\ (forall h, l !! 0%nat = Some h -> Height h = add64 (Height a) 1)
    /\ (forall i x y, l !! i = Some x -> l !! S i = Some y ->
          Height y = add64 (Height x) 1)
    /\ (forall chain : Z -> Header,
          (forall n s (w : W) p s' w',
              GetHeaderByHeight n s w = (Ok p, s', w') ->
              forall h, deref s' p = Some h ->
                Hash h = Hash (chain n) /\ PrevHash h = PrevHash (chain n)) ->
          (forall n, in_int64 n -> PrevHash (chain (add64 n 1)) = Hash (chain n)) ->
          forall i x y, l !! i = Some x -> l !! S i = Some y ->
            PrevHash y = Hash x).
Proof.
  intros Hheight Hfind Ha.
  rewrite pullingLoop_unfold, Hfind, Ha.
  pose proof (findBestBlock_trace fuel m) as Ht0. rewrite Hfind in Ht0.
  simpl in Ht0.
  set (m1 := mkMachine _ _ _ _).
  destruct (pullingLoop_for_served fuel (add64 (Height a) 1)
              (Some (length (hdrs (store m0)))) m1) as (l & Hl & Hs).
  exists l. split; [by rewrite Hl; simpl; rewrite Ht0|].
  assert (Hh : forall n h, served_by_node n h -> Height h = n).
  { intros n h (s & w & p & s' & w' & Hcall & Hd). eauto. }
  split; [|split].
  - intros h H0. apply Hh. eapply served_from_first; eauto.
  - intros i x y Hx Hy.
    destruct (served_from_adjacent _ _ _ Hs i x y Hx Hy) as (n & Hn & Hn').
    apply Hh in Hn, Hn'. congruence.
  - intros chain Hchain Hlink i x y Hx Hy.
    apply served_from_range in Hs; [|apply wrap64_range].
    destruct (served_from_adjacent _ _ _ Hs i x y Hx Hy)
      as (n & [Hr Hn] & [_ Hn']).
    destruct Hn as (s & w & p & s' & w' & Hcall & Hd).
    destruct Hn' as (s2 & w2 & p2 & s2' & w2' & Hcall2 & Hd2).
    destruct (Hchain _ _ _ _ _ _ Hcall _ Hd) as [HH _].
    destruct (Hchain _ _ _ _ _ _ Hcall2 _ Hd2) as [_ HP].
    rewrite HH, HP. by apply Hlink.
Qed.
End PullerProperties.

(** ** Iterations of the two loops *)

Lemma headersEqual_same s p b : headersEqual s p p = Some b -> b = true.
Proof.
  unfold headersEqual. destruct (deref s p) as [f|]; [|discriminate]. simpl.
  rewrite !bool_decide_eq_true_2 by done. simpl.
  destruct (slice_bytes s (Raw f)) as [a|]; [|discriminate]. simpl.
  rewrite bool_decide_eq_true_2 by apply bytes_Compare_refl. congruence.
Qed.

Lemma chan_send_room {A : Type} (c : chan A) v :
  room c -> chan_send c v = Sent (mkChan (ch_cap c) (ch_buf c ++ [v]) false).
Proof.
  intros [Hc Hl]. unfold chan_send. rewrite Hc.
  by destruct (Nat.ltb_spec (length (ch_buf c)) (ch_cap c)); [|lia].
Qed.

Lemma chan_send_full {A : Type} (c : chan A) v : full c -> chan_send c v = WouldBlock.
Proof.
  intros [Hc Hl]. unfold chan_send. rewrite Hc.
  by destruct (Nat.ltb_spec (length (ch_buf c)) (ch_cap c)); [lia|].
Qed.

Lemma chan_send_Sent {A : Type} (c c' : chan A) v :
  chan_send c v = Sent c' ->
  room c /\ c' = mkChan (ch_cap c) (ch_buf c ++ [v]) false.
Proof.
  unfold chan_send, room. destruct (ch_closed c); [discriminate|].
  destruct (Nat.ltb_spec (length (ch_buf c)) (ch_cap c)); [|discriminate].
  by intros [= <-].
Qed.

Section IterationProperties.
Context {W : Type}.
Context {btcChain : BtcHandle W} {hostChain : ChainHandle W}.
Context {rt : Runtime W} {helpers : Helpers W}.

(** One iteration of the pushing loop, as an equation. *)
Lemma pushingLoop_unfold fuel (m : Machine W) :
  pushingLoop (S fuel) m =
  match selectCancel m with
  | Done (Some _) m1 => Done tt m1
  | Done None m1 =>
      match pullHeadersFromQueue fuel m1 with
      | Done headers m2 =>
          if (length headers =? 0)%nat then pushingLoop fuel m2
          else
            match pushHeadersToHostChain fuel headers (log (EvPush headers) m2) with
            | Done (Some err) m3 => sendError fuel (Errorf fmt_push_headers err) m3
            | Done None m3 =>
                match sleepSelect fuel forwarderPushingSleepTime m3 with
                | Done _ m4 => pushingLoop fuel m4
                | Panic m4 => Panic m4
                | Running m4 => Running m4
                end
            | Panic m3 => Panic m3
            | Running m3 => Running m3
            end
      | Panic m2 => Panic m2
      | Running m2 => Running m2
      end
  | Panic m1 => Panic m1
  | Running m1 => Running m1
  end.
Proof.
  simpl. unfold bind, ret.
  destruct (selectCancel m) as [[c|] m1|m1|m1]; try reflexivity.
  destruct (pullHeadersFromQueue fuel m1) as [hs m2|m2|m2]; try reflexivity.
  destruct (length hs =? 0)%nat; [reflexivity|].
  destruct (pushHeadersToHostChain fuel hs (log (EvPush hs) m2))
    as [[e|] m3|m3|m3]; reflexivity.
Qed.

(** The send on the error channel when the channel has room once the
    other parties have acted, and when it has none. *)
Lemma sendError_room fuel e (m : Machine W) :
  room (errChan (fwd (yield m))) ->
  sendError fuel e m =
    Done tt (log (EvReport e)
               (set_errChan
                  (mkChan (ch_cap (errChan (fwd (yield m))))
                     (ch_buf (errChan (fwd (yield m))) ++ [e]) false)
                  (yield m))).
Proof.
  intros Hr. unfold sendError.
  destruct fuel; simpl; unfold trySendError; by rewrite (chan_send_room _ _ Hr).
Qed.

Lemma sendError_full fuel e (m : Machine W) :
  full (errChan (fwd (yield m))) ->
  sendError O e m = Running (yield m) /\
  sendError (S fuel) e m = sendError fuel e (yield m).
Proof.
  intros Hf. unfold sendError. simpl. unfold trySendError.
  by rewrite (chan_send_full _ _ Hf).
Qed.

(** A send on the headers queue that went through. *)
Lemma sendHeader_Done fuel p (m m' : Machine W) :
  sendHeader fuel p m = Done tt m' ->
  exists m0,
    trace m0 = trace m /\ store m0 = store m /\
    room (headersQueue (fwd m0)) /\
    m' = log (EvEnqueue p (deref (store m) p))
           (set_headersQueue
              (mkChan (ch_cap (headersQueue (fwd m0)))
                 (ch_buf (headersQueue (fwd m0)) ++ [p]) false) m0).
Proof.
  unfold sendHeader. intros Hd.
  destruct (blocking_cases fuel (trySendHeader p) m) as (m0 & Ht & Hs & [H|[_ H]]);
    [|congruence].
  rewrite Hd in H. unfold trySendHeader in H.
  destruct (chan_send (headersQueue (fwd m0)) p) as [c| |] eqn:E; try discriminate.
  apply chan_send_Sent in E as [Hr ->].
  exists m0. repeat split; try done; try apply Hr.
  injection H as <-. by rewrite Hs.
Qed.

Lemma sendHeader_Done_props fuel p (m m' : Machine W) :
  sendHeader fuel p m = Done tt m' ->
  store m' = store m /\
  trace m' = trace m ++ [EvEnqueue p (deref (store m) p)] /\
  last (ch_buf (headersQueue (fwd m'))) = Some p.
Proof.
  intros H. destruct (sendHeader_Done _ _ _ _ H) as (m0 & Ht & Hs & _ & ->).
  simpl. rewrite Ht, Hs, last_snoc. done.
Qed.

Lemma selectCancel_ready (m : Machine W) :
  ctxDone (world (yield m)) = true \/ chan_ready (quit (fwd (yield m))) = true ->
  exists c m1, selectCancel m = Done (Some c) m1.
Proof.
  intros H. unfold selectCancel.
  destruct (ready_cases None (yield m)) as [|c0 cs] eqn:E.
  - exfalso. unfold ready_cases in E.
    destruct H as [H|H]; rewrite H in E; [discriminate|].
    by destruct (ctxDone (world (yield m))).
  - unfold choose.
    destruct (pick (length (c0 :: cs)) (world (yield m))) as [k w].
    by eexists _, _.
Qed.

Lemma headersEqual_Some_deref_r s p q b :
  headersEqual s p q = Some b -> exists h, deref s q = Some h.
Proof.
  unfold headersEqual. destruct (deref s p) as [f|]; [|discriminate]. simpl.
  destruct (deref s q) as [g|]; [eauto|discriminate].
Qed.

Lemma deref_Some_ptr s p h : deref s p = Some h -> exists l, p = Some l /\ hdrs s !! l = Some h.
Proof. destruct p as [l|]; [eauto|discriminate]. Qed.


(** C4, as the code has it.  The error channel is made with capacity
    one.  On each of its four fatal paths a loop performs the plain
    send statement on it and returns after the send.  The send goes
    through when the channel has room, and the error is then at the
    back of the buffer; while the channel is full the sender stays
    parked with its error and tries again, nothing being dropped. *)
Theorem fatal_errors_are_sent_blocking fuel (m : Machine W) :
  errChan RunForwarder = mkChan 1 [] false
  /\ (forall err m1,
        findBestBlock fuel m = Done (Err err) m1 ->
        pullingLoop fuel m = sendError fuel (Errorf fmt_find_best_block err) m1)
  /\ (forall L la m1 err m2,
        selectCancel m = Done None m1 ->
        callGetBlockCount m1 = Done (Err err) m2 ->
        pullingLoop_for (S fuel) L la m =
          sendError fuel (Errorf fmt_block_count err) m2)
  /\ (forall L la m1 chainHeight m2 err m3,
        selectCancel m = Done None m1 ->
        callGetBlockCount m1 = Done (Ok chainHeight) m2 ->
        L <= chainHeight ->
        callGetHeaderByHeight L m2 = Done (Err err) m3 ->
        pullingLoop_for (S fuel) L la m =
          sendError fuel (ErrorfAt fmt_header_by_height L err) m3)
  /\ (forall m1 headers m2 err m3,
        selectCancel m = Done None m1 ->
        pullHeadersFromQueue fuel m1 = Done headers m2 ->
        headers <> [] ->
        pushHeadersToHostChain fuel headers (log (EvPush headers) m2)
          = Done (Some err) m3 ->
        pushingLoop (S fuel) m = sendError fuel (Errorf fmt_push_headers err) m3)
  /\ (forall e,
        (room (errChan (fwd (yield m))) ->
           sendError fuel e m =
             Done tt (log (EvReport e)
                        (set_errChan
                           (mkChan (ch_cap (errChan (fwd (yield m))))
                              (ch_buf (errChan (fwd (yield m))) ++ [e]) false)
                           (yield m))))
        /\ (full (errChan (fwd (yield m))) ->
              sendError O e m = Running (yield m) /\
              sendError (S fuel) e m = sendError fuel e (yield m))).
Proof.
  split; [reflexivity|].
  split; [intros err m1 H; by rewrite pullingLoop_unfold, H|].
  split; [intros L la m1 err m2 H1 H2; by rewrite pullingLoop_for_unfold, H1, H2|].
  split.
  { intros L la m1 ch m2 err m3 H1 H2 Hle H3.
    rewrite pullingLoop_for_unfold, H1, H2.
    destruct (Z.leb_spec L ch); [|lia]. by rewrite H3. }
  split.
  { intros m1 hs m2 err m3 H1 H2 Hne H3.
    rewrite pushingLoop_unfold, H1, H2.
    destruct hs; [done|]. simpl. by rewrite H3. }
  intros e. split; [apply sendError_room | apply sendError_full].
Qed.

(** C8: in an iteration of the pushing loop whose batch assembly yields
    no header, nothing follows the assembly: the next iteration starts
    on the machine the assembly left, so the submission was not called
    and the sleep was not entered. *)
Theorem pushingLoop_skips_empty_batch fuel (m m1 m2 : Machine W) headers :
  selectCancel m = Done None m1 ->
  pullHeadersFromQueue fuel m1 = Done headers m2 ->
  length headers = 0%nat ->
  pushingLoop (S fuel) m = pushingLoop fuel m2.
Proof.
  intros H1 H2 H0. by rewrite pushingLoop_unfold, H1, H2, H0.
Qed.

Lemma selectCancel_Some (m : Machine W) c m1 :
  selectCancel m = Done (Some c) m1 -> returned_for_cause m1.
Proof.
  unfold selectCancel.
  destruct (choose (ready_cases None (yield m)) (yield m)) as [[c' m2]|] eqn:E;
    [|discriminate].
  intros [= -> <-]. apply choose_Some in E as (_ & _ & Hin).
  exists (EvCancelled c). simpl. rewrite last_snoc. split; [done|].
  unfold ready_cases in Hin. rewrite app_nil_r in Hin.
  apply elem_of_app in Hin as [Hin|Hin].
  - destruct (ctxDone (world (yield m))); [|by apply elem_of_nil in Hin].
    by apply list_elem_of_singleton in Hin as ->.
  - destruct (chan_ready (quit (fwd (yield m)))); [|by apply elem_of_nil in Hin].
    by apply list_elem_of_singleton in Hin as ->.
Qed.

Lemma sendError_Done fuel e (m m' : Machine W) :
  sendError fuel e m = Done tt m' -> returned_for_cause m'.
Proof.
  intros H.
  destruct (sendError_cases fuel e m) as [(m2 & E & Ht & _)|(m2 & [E|E] & _)];
    rewrite H in E; try discriminate.
  injection E as <-. exists (EvReport e). by rewrite Ht, last_snoc.
Qed.

Lemma pullingLoop_for_Done fuel :
  forall L la (m m' : Machine W),
    pullingLoop_for fuel L la m = Done tt m' -> returned_for_cause m'.
Proof.
  induction fuel as [|fuel IH]; intros L la m m'; [discriminate|].
  rewrite pullingLoop_for_unfold.
  destruct (selectCancel m) as [[c|] m1|m1|m1] eqn:Hsel; try discriminate.
  { intros [= <-]. by eapply selectCancel_Some. }
  destruct (callGetBlockCount m1) as [[ch|e] m2|m2|m2]; try discriminate.
  2:{ apply sendError_Done. }
  destruct (L <=? ch).
  - destruct (callGetHeaderByHeight L m2) as [[p|e] m3|m3|m3]; try discriminate.
    2:{ apply sendError_Done. }
    destruct (headersEqual (store m3) p la) as [[|]|]; try discriminate.
    { apply IH. }
    destruct (sendHeader fuel p m3) as [[] m4|m4|m4]; try discriminate.
    destruct (copyHeaders (store m4) la p); [apply IH | discriminate].
  - destruct (sleepSelect fuel forwarderPullingSleepTime m2) as [[] m3|m3|m3];
      try discriminate.
    apply IH.
Qed.

Lemma pushingLoop_Done fuel :
  forall (m m' : Machine W),
    pushingLoop fuel m = Done tt m' -> returned_for_cause m'.
Proof.
  induction fuel as [|fuel IH]; intros m m'; [discriminate|].
  rewrite pushingLoop_unfold.
  destruct (selectCancel m) as [[c|] m1|m1|m1] eqn:Hsel; try discriminate.
  { intros [= <-]. by eapply selectCancel_Some. }
  destruct (pullHeadersFromQueue fuel m1) as [hs m2|m2|m2]; try discriminate.
  destruct (length hs =? 0)%nat; [apply IH|].
  destruct (pushHeadersToHostChain fuel hs (log (EvPush hs) m2))
    as [[e|] m3|m3|m3]; try discriminate.
  { apply sendError_Done. }
  destruct (sleepSelect fuel forwarderPushingSleepTime m3) as [[] m4|m4|m4];
    try discriminate.
  apply IH.
Qed.

End IterationProperties.

(** ** The theorems at work on the scripted collaborators *)

Lemma deref_alloc_header hd s :
  deref (alloc_header hd s).2 (alloc_header hd s).1 =
    Some {| Hash := d_Hash hd; Height := d_Height hd;
            PrevHash := d_PrevHash hd; MerkleRoot := d_MerkleRoot hd;
            Raw := Some (length (bufs s)) |}.
Proof. simpl. rewrite lookup_app_r by done. by rewrite Nat.sub_diag. Qed.

Lemma wrap64_pred_succ n : in_int64 n -> wrap64 (add64 n 1 - 1) = n.
Proof.
  intros Hn. destruct (Z.eq_dec n max_int64) as [->|Hne]; [reflexivity|].
  assert (E : add64 n 1 = n + 1).
  { apply add64_no_overflow. unfold in_int64 in Hn. lia. }
  rewrite E. replace (n + 1 - 1) with n by lia. by apply wrap64_small.
Qed.

Lemma chain_header_linked tag n :
  in_int64 n ->
  PrevHash (chain_header tag (add64 n 1)) = Hash (chain_header tag n).
Proof. intros Hn. simpl. by rewrite wrap64_pred_succ. Qed.

Section SteadyRuns.
#[local] Existing Instances steady_btc steady_host steady_rt steady_helpers.

Lemma steady_node_serves n s (w : nat) p s' w' h :
  GetHeaderByHeight n s w = (Ok p, s', w') -> deref s' p = Some h ->
  Height h = n /\ Hash h = Hash (chain_header Byte.x0a n)
  /\ PrevHash h = PrevHash (chain_header Byte.x0a n).
Proof.
  simpl. intros [= <- <- <-].
  pose proof (deref_alloc_header (block Byte.x0a n) s) as E. simpl in E.
  simpl. rewrite E. by intros [= <-].
Qed.

Lemma enqueued_headers_follow_node_witness :
  exists l,
    enqueued (trace (final (pullingLoop 6 start_machine))) =
      enqueued (trace start_machine) ++ l
    /\ (forall h, l !! 0%nat = Some h -> Height h = add64 100 1)
    /\ (forall i x y, l !! i = Some x -> l !! S i = Some y ->
          Height y = add64 (Height x) 1)
    /\ (forall i x y, l !! i = Some x -> l !! S i = Some y ->
          PrevHash y = Hash x).
Proof.
  destruct (enqueued_headers_follow_node 6 start_machine (Some 0%nat)
              steady_ancestor steady_ancestor_found)
    as (l & H1 & H2 & H3 & H4).
  - intros n s w p s' w' Hcall h Hh.
    by destruct (steady_node_serves n s w p s' w' h Hcall Hh).
  - vm_compute. reflexivity.
  - vm_compute. reflexivity.
  - exists l. repeat split; try assumption.
    apply (H4 (chain_header Byte.x0a)).
    + intros n s w p s' w' Hcall h Hh.
      destruct (steady_node_serves n s w p s' w' h Hcall Hh) as (_ & Ha & Hb).
      exact (conj Ha Hb).
    + intros n Hn. exact (chain_header_linked _ n Hn).
Defined.
End SteadyRuns.

Section ReorgRuns.
#[local] Existing Instances reorg_btc reorg_host reorg_rt reorg_helpers.

(** C1, as claimed, fails: with a reorganization of the Bitcoin chain
    between the fetch at 101 and the fetch at 102, the puller enqueues
    two headers of consecutive heights of which the second does not name
    the first as its parent. *)
Lemma reorg_breaks_PrevHash_link :
  exists x y,
    enqueued (trace (final (pullingLoop 3 start_machine))) = [x; y]
    /\ Height x = 101 /\ Height y = Height x + 1
    /\ Hash x = digest_of Byte.x0a 101
    /\ PrevHash y = digest_of Byte.x0b 101
    /\ PrevHash y <> Hash x.
Proof.
  eexists _, _. split; [vm_compute; reflexivity|].
  repeat split; try (vm_compute; reflexivity). discriminate.
Qed.
End ReorgRuns.


Section StaleRuns.
#[local] Existing Instances stale_btc stale_host stale_rt stale_helpers.

Lemma stale_walk_decreases best (m : Machine nat) b best' m1 b' better' m2 :
  stale_candidates best m ->
  deref (store m) best = Some b ->
  callGetHeaderByDigest (PrevHash b) m = Done (Ok best') m1 ->
  deref (store m1) best' = Some b' ->
  callGetHeaderByHeight (Height b') m1 = Done (Ok better') m2 ->
  stale_candidates best' m2 /\
  forall b2, deref (store m2) best' = Some b2 -> 0 <= Height b2 < Height b.
Proof.
  intros (b0 & Hb0 & Hcases) Hb Hd Hb' Hh.
  assert (b0 = b) as -> by congruence.
  unfold callGetHeaderByDigest in Hd. simpl in Hd.
  destruct Hcases as [[H1 HP]|[H0 HP]]; rewrite HP in Hd.
  - rewrite bool_decide_eq_false_2 in Hd by discriminate.
    rewrite bool_decide_eq_true_2 in Hd by done.
    simpl in Hd. injection Hd as <- <-.
    simpl in Hb'. rewrite lookup_app_r in Hb' by done.
    rewrite Nat.sub_diag in Hb'. injection Hb' as <-.
    unfold callGetHeaderByHeight in Hh. simpl in Hh. injection Hh as _ <-.
    assert (E : deref
              {| hdrs := (hdrs (store m) ++ [ {| Hash := digest_of Byte.x0a 0;
                                                 Height := 0;
                                                 PrevHash := digest_of Byte.x0a (wrap64 (0 - 1));
                                                 MerkleRoot := zeroDigest;
                                                 Raw := Some (length (bufs (store m))) |} ])
                         ++ [ {| Hash := digest_of Byte.x0a 0;
                                 Height := 0;
                                 PrevHash := digest_of Byte.x0a (wrap64 (0 - 1));
                                 MerkleRoot := zeroDigest;
                                 Raw := Some (length (bufs (store m) ++ [le_bytes 80 0])) |} ];
                 bufs := (bufs (store m) ++ [le_bytes 80 0]) ++ [le_bytes 80 0] |}
              (Some (length (hdrs (store m))))
            = Some {| Hash := digest_of Byte.x0a 0; Height := 0;
                      PrevHash := digest_of Byte.x0a (wrap64 (0 - 1));
                      MerkleRoot := zeroDigest;
                      Raw := Some (length (bufs (store m))) |}).
    { simpl. rewrite <- app_assoc. rewrite lookup_app_r by done.
      by rewrite Nat.sub_diag. }
    split.
    + eexists. split; [exact E|]. right. by split.
    + intros b2 Hb2. simpl in Hb2, E. rewrite E in Hb2. injection Hb2 as <-.
      simpl. lia.
  - rewrite bool_decide_eq_false_2 in Hd by discriminate.
    rewrite bool_decide_eq_false_2 in Hd by discriminate.
    discriminate.
Qed.

Lemma findBestBlock_loop_terminates_witness :
  terminated (findBestBlock_for 5 (Some 0%nat) (Some 1%nat) stale_walk_start) /\
  findBestBlock_for 5 (Some 0%nat) (Some 1%nat) stale_walk_start =
    findBestBlock_for (Z.to_nat (1 + 1)) (Some 0%nat) (Some 1%nat) stale_walk_start.
Proof.
  apply (findBestBlock_loop_terminates stale_candidates stale_walk_decreases
           (Some 0%nat) (Some 1%nat) stale_walk_start stale_header).
  - exists stale_header. split; [reflexivity|]. left. by split.
  - reflexivity.
  - simpl. lia.
  - simpl. lia.
Defined.

(** The walk of this example: one step back, from the stale block to
    block 0, which is returned. *)
Example stale_walk_finds_block_0 :
  exists m', findBestBlock 1 start_machine = Done (Ok (Some 2%nat)) m'
             /\ (Height <$> deref (store m') (Some 2%nat)) = Some 0.
Proof. eexists. split; vm_compute; reflexivity. Qed.
End StaleRuns.

Section SteadyIterations.
#[local] Existing Instances steady_btc steady_host steady_rt steady_helpers.


Lemma pushingLoop_skips_empty_batch_witness :
  pushingLoop 3 start_machine =
    pushingLoop 2
      (final (pullHeadersFromQueue 2 (final (selectCancel start_machine)))).
Proof.
  apply (pushingLoop_skips_empty_batch 2 start_machine
           (final (selectCancel start_machine)) _ []);
    vm_compute; reflexivity.
Defined.
End SteadyIterations.

Section ReservingRuns.
#[local] Existing Instances reserving_btc reserving_host reserving_rt reserving_helpers.

(** A header served a second time equals [lastAdded] and is not enqueued
    again, and the loop stays at its height. *)
Example reserved_header_enqueued_once :
  Height <$> enqueued (trace (final (pullingLoop 8 start_machine))) = [101].
Proof. vm_compute. reflexivity. Qed.
End ReservingRuns.

Section BlockedRuns.
#[local] Existing Instances blocked_btc blocked_host blocked_rt blocked_helpers.

Lemma blocked_yield_fwd (m : Machine nat) : fwd (yield m) = fwd m.
Proof. reflexivity. Qed.

Lemma blocked_yield_trace (m : Machine nat) : trace (yield m) = trace m.
Proof. reflexivity. Qed.

(** While nobody receives, a sender on the full error channel stays
    parked, whatever the fuel. *)
Lemma blocked_sendError fuel :
  forall e (m : Machine nat),
    full (errChan (fwd m)) ->
    exists m', sendError fuel e m = Running m'
               /\ fwd m' = fwd m /\ trace m' = trace m.
Proof.
  induction fuel as [|fuel IH]; intros e m Hfull.
  - exists (yield m).
    destruct (sendError_full 0 e m) as [-> _];
      [by rewrite blocked_yield_fwd|].
    split; [reflexivity|]. split; [apply blocked_yield_fwd | reflexivity].
  - destruct (sendError_full fuel e m) as [_ ->];
      [by rewrite blocked_yield_fwd|].
    destruct (IH e (yield m)) as (m' & -> & Hf & Ht);
      [by rewrite blocked_yield_fwd|].
    exists m'. split; [reflexivity|].
    split; [by rewrite Hf, blocked_yield_fwd | by rewrite Ht].
Qed.

Lemma reported_full : full (errChan reported_forwarder).
Proof. split; [reflexivity | simpl; lia]. Qed.

Lemma reported_select :
  selectCancel reported_machine = Done None reported_after_select.
Proof. vm_compute. reflexivity. Qed.

Lemma reported_count :
  callGetBlockCount reported_after_select =
    Done (Err (ExternalError "node down")) reported_after_count.
Proof. vm_compute. reflexivity. Qed.

Lemma reported_batch fuel :
  pullHeadersFromQueue fuel reported_after_select =
    Done [Some 0%nat] reported_after_batch.
Proof. vm_compute. reflexivity. Qed.

Lemma reported_push fuel :
  pushHeadersToHostChain fuel [Some 0%nat]
    (log (EvPush [Some 0%nat]) reported_after_batch) =
    Done (Some (ExternalError "submission failed")) reported_after_push.
Proof. vm_compute. reflexivity. Qed.

Lemma reported_after_count_full : full (errChan (fwd reported_after_count)).
Proof. split; [reflexivity | simpl; lia]. Qed.

Lemma reported_after_push_full : full (errChan (fwd reported_after_push)).
Proof. split; [reflexivity | simpl; lia]. Qed.

(** C4, as claimed, fails.  With an error of the other loop in the
    error channel and nobody receiving, the pulling loop whose block
    count fails does not drop its error and return: it stays in the
    send, whatever the fuel, where the non-blocking send of the claim
    returns at once.  When the buffered error is received, at tick 5,
    the later error is delivered, not dropped. *)
Lemma fatal_error_send_blocks :
  (forall fuel, exists m',
      pullingLoop_for (S fuel) 101 (Some 0%nat) reported_machine = Running m'
      /\ fwd m' = reported_forwarder /\ trace m' = [])
  /\ (exists m',
        sendErrorNonBlocking node_down_error reported_after_count = Done tt m'
        /\ fwd m' = reported_forwarder /\ trace m' = [])
  /\ (exists m',
        pullingLoop_for (btcChain := received_btc) (rt := received_rt)
          6 101 (Some 0%nat) reported_machine = Done tt m'
        /\ ch_buf (errChan (fwd m')) = [node_down_error]
        /\ trace m' = [EvReport node_down_error]).
Proof.
  split; [|split].
  - intros fuel.
    rewrite pullingLoop_for_unfold, reported_select, reported_count.
    destruct (blocked_sendError fuel node_down_error reported_after_count
                reported_after_count_full) as (m' & Hrun & Hf & Ht).
    exists m'. split; [exact Hrun|]. split; [by rewrite Hf | by rewrite Ht].
  - eexists. split; [vm_compute; reflexivity|]. split; reflexivity.
  - eexists. split; [vm_compute; reflexivity|]. split; reflexivity.
Qed.


Lemma start_room : room (errChan (fwd (yield start_machine))).
Proof. split; [reflexivity | simpl; lia]. Qed.

Lemma fatal_errors_are_sent_blocking_witness :
  errChan RunForwarder = mkChan 1 [] false
  /\ pullingLoop 3 start_machine =
       sendError 3 (Errorf fmt_find_best_block (ExternalError "host chain down"))
         (final (findBestBlock 3 start_machine))
  /\ pullingLoop_for 4 101 (Some 0%nat) reported_machine =
       sendError 3 node_down_error reported_after_count
  /\ pushingLoop 4 reported_machine =
       sendError 3 push_error reported_after_push
  /\ sendError 3 node_down_error start_machine =
       Done tt (log (EvReport node_down_error)
                  (set_errChan (mkChan 1 [node_down_error] false)
                     (yield start_machine)))
  /\ sendError O node_down_error reported_machine = Running (yield reported_machine)
  /\ sendError 4 node_down_error reported_machine =
       sendError 3 node_down_error (yield reported_machine).
Proof.
  destruct (fatal_errors_are_sent_blocking 3 start_machine)
    as (Hcap & Hfind & _ & _ & _ & Hsend).
  destruct (fatal_errors_are_sent_blocking 3 reported_machine)
    as (_ & _ & Hcount & _ & Hpush & Hsend').
  split; [exact Hcap|].
  split; [apply Hfind; vm_compute; reflexivity|].
  split; [apply (Hcount 101 (Some 0%nat) reported_after_select);
          [apply reported_select | apply reported_count]|].
  split; [apply (Hpush reported_after_select [Some 0%nat] reported_after_batch);
          [apply reported_select | apply reported_batch | discriminate
          | apply reported_push]|].
  split; [apply (proj1 (Hsend node_down_error) start_room)|].
  apply (proj2 (Hsend' node_down_error) reported_full).
Defined.

Lemma blocked_pulling_returns :
  pullingLoop 3 start_machine = Done tt (final (pullingLoop 3 start_machine)).
Proof. vm_compute. reflexivity. Qed.

Lemma blocked_pushing_returns :
  pushingLoop 3 start_machine = Done tt (final (pushingLoop 3 start_machine)).
Proof. vm_compute. reflexivity. Qed.
End BlockedRuns.

Section CancelledRuns.
#[local] Existing Instances cancelled_btc cancelled_host cancelled_rt cancelled_helpers.

Lemma cancelled_ctx_done :
  ctxDone (world (yield start_machine)) = true \/
  chan_ready (quit (fwd (yield start_machine))) = true.
Proof. left. reflexivity. Qed.
End CancelledRuns.


(** ** Further properties of header equality and copy *)

Lemma bytes_Compare_zero_sym (a b : list byte) :
  bool_decide (bytes_Compare a b = 0) = bool_decide (bytes_Compare b a = 0).
Proof.
  apply bool_decide_ext. rewrite !bytes_Compare_eq. split; congruence.
Qed.

Lemma four_fields_bool_sym (f g : Header) :
  bool_decide (Hash f = Hash g) && bool_decide (Height f = Height g)
  && bool_decide (PrevHash f = PrevHash g)
  && bool_decide (MerkleRoot f = MerkleRoot g)
  = bool_decide (Hash g = Hash f) && bool_decide (Height g = Height f)
    && bool_decide (PrevHash g = PrevHash f)
    && bool_decide (MerkleRoot g = MerkleRoot f).
Proof.
  f_equal; [f_equal; [f_equal|]|]; apply bool_decide_ext; split; congruence.
Qed.

Lemma headersEqual_sym s p q : headersEqual s p q = headersEqual s q p.
Proof.
  unfold headersEqual.
  destruct (deref s p) as [f|], (deref s q) as [g|]; simpl; try reflexivity.
  rewrite (four_fields_bool_sym f g).
  destruct (bool_decide (Hash g = Hash f) && bool_decide (Height g = Height f)
            && bool_decide (PrevHash g = PrevHash f)
            && bool_decide (MerkleRoot g = MerkleRoot f)); [|reflexivity].
  destruct (slice_bytes s (Raw f)) as [a|], (slice_bytes s (Raw g)) as [b|];
    simpl; try reflexivity.
  by rewrite bytes_Compare_zero_sym.
Qed.

Lemma headersEqual_true_inv s p q :
  headersEqual s p q = Some true ->
  exists f g a b,
    deref s p = Some f /\ deref s q = Some g /\
    slice_bytes s (Raw f) = Some a /\ slice_bytes s (Raw g) = Some b /\
    four_fields_eq f g /\ a = b.
Proof.
  intros H. pose proof H as H'. unfold headersEqual in H'.
  destruct (deref s p) as [f|] eqn:Hp; [|discriminate].
  destruct (deref s q) as [g|] eqn:Hq; [|discriminate].
  simpl in H'.
  destruct (bool_decide (Hash f = Hash g) && bool_decide (Height f = Height g)
            && bool_decide (PrevHash f = PrevHash g)
            && bool_decide (MerkleRoot f = MerkleRoot g)); [|discriminate].
  destruct (slice_bytes s (Raw f)) as [a|] eqn:Ha; [|discriminate].
  destruct (slice_bytes s (Raw g)) as [b|] eqn:Hb; [|discriminate].
  destruct (proj1 (headersEqual_true_iff s p q f g a b Hp Hq Ha Hb) H) as [H4 Hab].
  by exists f, g, a, b.
Qed.

Lemma headersEqual_refl s p f a :
  deref s p = Some f -> slice_bytes s (Raw f) = Some a ->
  headersEqual s p p = Some true.
Proof.
  intros Hp Ha. by apply (headersEqual_true_iff s p p f f a a).
Qed.

Lemma headersEqual_trans s p q r :
  headersEqual s p q = Some true -> headersEqual s q r = Some true ->
  headersEqual s p r = Some true.
Proof.
  intros H1 H2.
  destruct (headersEqual_true_inv _ _ _ H1)
    as (f & g & a & b & Hp & Hq & Ha & Hb & (E1 & E2 & E3 & E4) & ->).
  destruct (headersEqual_true_inv _ _ _ H2)
    as (g' & h & b' & c & Hq' & Hr & Hb' & Hc & (F1 & F2 & F3 & F4) & ->).
  assert (g' = g) as -> by congruence.
  assert (b = c) as -> by congruence.
  apply (headersEqual_true_iff s p r f h c c); try done.
  unfold four_fields_eq. repeat split; congruence.
Qed.

(** X1: [headersEqual] is an equivalence on the headers of a store: a
    header with readable [Raw] equals itself, the answer does not depend
    on the order of the two arguments (a panic included), and equality
    goes through a common third header. *)
Theorem headersEqual_equivalence s p q r f a :
  deref s p = Some f -> slice_bytes s (Raw f) = Some a ->
  headersEqual s p p = Some true
  /\ headersEqual s p q = headersEqual s q p
  /\ (headersEqual s p q = Some true -> headersEqual s q r = Some true ->
      headersEqual s p r = Some true).
Proof.
  intros Hp Ha. split; [by eapply headersEqual_refl|].
  split; [apply headersEqual_sym | apply headersEqual_trans].
Qed.

Lemma headersEqual_equivalence_witness :
  headersEqual store_raw_differs (Some 0%nat) (Some 0%nat) = Some true
  /\ headersEqual store_raw_differs (Some 0%nat) (Some 1%nat) =
       headersEqual store_raw_differs (Some 1%nat) (Some 0%nat)
  /\ (headersEqual store_raw_differs (Some 0%nat) (Some 1%nat) = Some true ->
      headersEqual store_raw_differs (Some 1%nat) None = Some true ->
      headersEqual store_raw_differs (Some 0%nat) None = Some true).
Proof.
  apply (headersEqual_equivalence store_raw_differs (Some 0%nat) (Some 1%nat) None
           (header_a7 0) [Byte.x01; Byte.x02]); reflexivity.
Defined.

(** X2: [headersEqual] is the stricter of the two equalities: headers it
    holds equal are equal for the method [Equals] as well, in both
    orders. *)
Theorem headersEqual_implies_Equals s p q :
  headersEqual s p q = Some true ->
  Equals s p q = Some true /\ Equals s q p = Some true.
Proof.
  intros H.
  destruct (headersEqual_true_inv _ _ _ H)
    as (f & g & a & b & Hp & Hq & _ & _ & (E1 & E2 & E3 & E4) & _).
  split.
  - apply (Equals_true_iff s p q f g Hp Hq). by unfold four_fields_eq.
  - apply (Equals_true_iff s q p g f Hq Hp). by unfold four_fields_eq.
Qed.

Lemma headersEqual_implies_Equals_witness :
  Equals store_two_copies (Some 0%nat) (Some 1%nat) = Some true /\
  Equals store_two_copies (Some 1%nat) (Some 0%nat) = Some true.
Proof.
  apply (headersEqual_implies_Equals store_two_copies (Some 0%nat) (Some 1%nat)).
  reflexivity.
Defined.

(** X3: comparing a header with the copy that [copyHeaders] made is
    the same as comparing it with the original, and the original still
    compares as before. *)
Theorem compare_with_copy s (d l q : nat) hd v r f a :
  d <> l -> q <> d ->
  hdrs s !! d = Some hd -> hdrs s !! l = Some v ->
  slice_bytes s (Raw v) = Some r ->
  hdrs s !! q = Some f -> slice_bytes s (Raw f) = Some a ->
  exists s',
    copyHeaders s (Some d) (Some l) = Some s'
    /\ headersEqual s' (Some q) (Some d) = headersEqual s (Some q) (Some l)
    /\ headersEqual s' (Some q) (Some l) = headersEqual s (Some q) (Some l).
Proof.
  intros Hne Hq Hd Hl Hr Hf Ha.
  assert (Hdlt : (d < length (hdrs s))%nat) by (eapply lookup_lt_Some; eauto).
  eexists. split; [eapply copyHeaders_distinct_eq; eauto|].
  set (s' := {| hdrs := _; bufs := _ |}).
  assert (Hgrow : forall b' x, bufs s !! b' = Some x -> bufs s' !! b' = Some x).
  { intros b' x Hb. simpl. by rewrite lookup_app_l_Some with (x:=x). }
  assert (Hq' : deref s' (Some q) = Some f).
  { simpl. by rewrite list_lookup_insert_ne. }
  assert (Hd' : deref s' (Some d) = Some (with_Raw v (Some (length (bufs s))))).
  { simpl. by rewrite list_lookup_insert_eq. }
  assert (Hl' : deref s' (Some l) = Some v).
  { simpl. by rewrite list_lookup_insert_ne. }
  assert (Hb' : slice_bytes s' (Some (length (bufs s))) = Some r).
  { simpl. rewrite lookup_app_r by done. by rewrite Nat.sub_diag. }
  assert (Ha' : slice_bytes s' (Raw f) = Some a) by (eapply slice_bytes_grow; eauto).
  assert (Hr' : slice_bytes s' (Raw v) = Some r) by (eapply slice_bytes_grow; eauto).
  assert (Hq0 : deref s (Some q) = Some f) by done.
  assert (Hl0 : deref s (Some l) = Some v) by done.
  unfold headersEqual.
  rewrite Hq', Hd', Hl', Hq0, Hl0. simpl.
  change (slice_bytes s' (Some (length (bufs s)))) with (bufs s' !! length (bufs s)).
  simpl in Hb'. rewrite Ha', Hr', Ha, Hr.
  destruct (bool_decide (Hash f = Hash v) && bool_decide (Height f = Height v)
            && bool_decide (PrevHash f = PrevHash v)
            && bool_decide (MerkleRoot f = MerkleRoot v)); [|done].
  simpl. rewrite Hb'. done.
Qed.

Lemma compare_with_copy_witness :
  exists s',
    copyHeaders store_three_headers (Some 2%nat) (Some 0%nat) = Some s'
    /\ headersEqual s' (Some 1%nat) (Some 2%nat) =
         headersEqual store_three_headers (Some 1%nat) (Some 0%nat)
    /\ headersEqual s' (Some 1%nat) (Some 0%nat) =
         headersEqual store_three_headers (Some 1%nat) (Some 0%nat).
Proof.
  apply (compare_with_copy store_three_headers 2%nat 0%nat 1%nat zeroHeader
           (header_a7 0) [Byte.x01; Byte.x02] (header_a7 1) [Byte.x01; Byte.x02]);
    [lia | lia | reflexivity | reflexivity | reflexivity | reflexivity | reflexivity].
Defined.

(** ** Further properties of ancestor discovery *)

Section DiscoveryResults.
Context {W : Type}.
Context {btcChain : BtcHandle W} {hostChain : ChainHandle W}.

Lemma callGetHeaderByHeight_oracle n (m m' : Machine W) r :
  callGetHeaderByHeight n m = Done r m' ->
  GetHeaderByHeight n (store m) (world m) = (r, store m', world m').
Proof.
  unfold callGetHeaderByHeight.
  destruct (GetHeaderByHeight n (store m) (world m)) as [[r0 s] w].
  by intros [= <- <-].
Qed.

(** The candidate that the loop returns equals the canonical header it
    was last compared with: the one the loop was entered with, or the
    node's answer for the candidate's height. *)
Lemma findBestBlock_for_result fuel :
  forall best better (m : Machine W) p m',
    findBestBlock_for fuel best better m = Done (Ok p) m' ->
    exists canonical,
      headersEqual (store m') p canonical = Some true /\
      ((p = best /\ canonical = better /\ m' = m) \/
       exists m0 b0,
         deref (store m0) p = Some b0 /\
         GetHeaderByHeight (Height b0) (store m0) (world m0)
           = (Ok canonical, store m', world m')).
Proof.
  induction fuel as [|fuel IH]; intros best better m p m';
    rewrite findBestBlock_for_unfold;
    destruct (headersEqual (store m) best better) as [[|]|] eqn:Heq;
    try discriminate.
  - intros [= <- <-]. exists better. split; [done|]. by left.
  - intros [= <- <-]. exists better. split; [done|]. by left.
  - destruct (deref (store m) best) as [b|]; [|discriminate].
    destruct (callGetHeaderByDigest (PrevHash b) m)
      as [[best'|e] m1|m1|m1]; try discriminate.
    destruct (deref (store m1) best') as [b'|] eqn:Hb'; [|discriminate].
    destruct (callGetHeaderByHeight (Height b') m1)
      as [[better'|e] m2|m2|m2] eqn:Hh; try discriminate.
    intros Hrec.
    destruct (IH _ _ _ _ _ Hrec) as (canonical & Hc & [(-> & -> & ->)|Hcall]).
    + exists better'. split; [done|]. right. exists m1, b'.
      split; [done|]. by apply callGetHeaderByHeight_oracle.
    + exists canonical. split; [done|]. by right.
Qed.

(** X8: the header that [findBestBlock] returns is on the node's
    canonical chain as of the last call made: it equals, in all five
    fields, the node's answer to the request for its own height. *)
Theorem findBestBlock_returns_canonical fuel (m : Machine W) p m' :
  findBestBlock fuel m = Done (Ok p) m' ->
  exists canonical m0 b0,
    deref (store m0) p = Some b0
    /\ GetHeaderByHeight (Height b0) (store m0) (world m0)
         = (Ok canonical, store m', world m')
    /\ headersEqual (store m') p canonical = Some true.
Proof.
  rewrite findBestBlock_unfold.
  destruct (callGetBestKnownDigest m) as [[d|e] m1|m1|m1]; try discriminate.
  destruct (callGetHeaderByDigest d m1) as [[best|e] m2|m2|m2]; try discriminate.
  destruct (deref (store m2) best) as [b|] eqn:Hb; [|discriminate].
  destruct (callGetHeaderByHeight (Height b) m2)
    as [[better|e] m3|m3|m3] eqn:Hh; try discriminate.
  intros Hrec.
  destruct (findBestBlock_for_result _ _ _ _ _ _ Hrec)
    as (canonical & Hc & [(-> & -> & ->)|(m0 & b0 & Hd & Hcall)]).
  - exists better, m2, b. split; [done|].
    split; [by apply callGetHeaderByHeight_oracle | done].
  - by exists canonical, m0, b0.
Qed.

Lemma findBestBlock_for_fwd fuel :
  forall best better (m : Machine W),
    fwd (final (findBestBlock_for fuel best better m)) = fwd m.
Proof.
  induction fuel as [|fuel IH]; intros best better m;
    rewrite findBestBlock_for_unfold;
    destruct (headersEqual (store m) best better) as [[|]|]; try reflexivity.
  destruct (deref (store m) best) as [b|]; [|reflexivity].
  destruct (callGetHeaderByDigest_Done (PrevHash b) m) as (r & m1 & -> & _ & Hf1).
  destruct r as [best'|e]; [|done].
  destruct (deref (store m1) best') as [b'|]; [|done].
  destruct (callGetHeaderByHeight_Done (Height b') m1) as (r & m2 & -> & _ & Hf2).
  destruct r as [better'|e]; [|simpl; congruence].
  rewrite IH. congruence.
Qed.

(** X9: [findBestBlock] is silent towards the other parties: whatever
    its outcome, it leaves the three channels of the forwarder as they
    were and adds nothing to the trace, so it has sent no error, has
    enqueued nothing and has taken no quit value; its errors reach the
    caller as results only. *)
Theorem findBestBlock_is_silent fuel (m : Machine W) :
  fwd (final (findBestBlock fuel m)) = fwd m
  /\ trace (final (findBestBlock fuel m)) = trace m.
Proof.
  split; [|apply findBestBlock_trace].
  rewrite findBestBlock_unfold.
  destruct (callGetBestKnownDigest_Done m) as (r & m1 & -> & _ & Hf1 & _).
  destruct r as [d|e]; [|done].
  destruct (callGetHeaderByDigest_Done d m1) as (r & m2 & -> & _ & Hf2).
  destruct r as [best|e]; [|simpl; congruence].
  destruct (deref (store m2) best) as [b|]; [|simpl; congruence].
  destruct (callGetHeaderByHeight_Done (Height b) m2) as (r & m3 & -> & _ & Hf3).
  destruct r as [better|e]; [|simpl; congruence].
  rewrite findBestBlock_for_fwd. congruence.
Qed.
End DiscoveryResults.

(** ** Further properties of the loops *)

Section LoopShape.
Context {W : Type}.
Context {btcChain : BtcHandle W} {hostChain : ChainHandle W}.
Context {rt : Runtime W} {helpers : Helpers W}.

Lemma sendError_shape fuel e (m : Machine W) :
  exists t, trace (final (sendError fuel e m)) = trace m ++ t /\
    ((t = [EvReport e] /\ is_done (sendError fuel e m) = true) \/
     (t = [] /\ is_done (sendError fuel e m) = false)).
Proof.
  destruct (sendError_cases fuel e m)
    as [(m' & E & Ht & _)|(m' & [E|E] & Ht & _)]; rewrite E; simpl.
  - exists [EvReport e]. by split; [|left].
  - exists []. rewrite app_nil_r. by split; [|right].
  - exists []. rewrite app_nil_r. by split; [|right].
Qed.

Lemma pullingLoop_for_shape fuel :
  forall L la (m : Machine W),
  exists t,
    trace (final (pullingLoop_for fuel L la m)) = trace m ++ t
    /\ puller_trace (is_done (pullingLoop_for fuel L la m)) t.
Proof.
  induction fuel as [|fuel IH]; intros L la m.
  { exists []. simpl. rewrite app_nil_r. split; [done | constructor]. }
  rewrite pullingLoop_for_unfold.
  assert (Hnil : forall m' : Machine W, trace m' = trace m ->
            exists t, trace m' = trace m ++ t /\ puller_trace false t).
  { intros m' E. exists []. rewrite app_nil_r. split; [done | constructor]. }
  assert (Herr : forall e (m' : Machine W), trace m' = trace m ->
            exists t, trace (final (sendError fuel e m')) = trace m ++ t
                      /\ puller_trace (is_done (sendError fuel e m')) t).
  { intros e m' E.
    destruct (sendError_shape fuel e m') as (t & Ht & [[Et Ed]|[Et Ed]]);
      exists t; rewrite Ht, E, Ed, Et; split; try done; constructor. }
  destruct (selectCancel_cases m) as [(m1 & -> & Ht1 & _)|(c & m1 & -> & Ht1 & _)].
  2:{ exists [EvCancelled c]. split; [done | constructor]. }
  destruct (callGetBlockCount_Done m1) as (r & m2 & -> & Ht2 & _).
  assert (E2 : trace m2 = trace m) by congruence.
  destruct r as [ch|e]; [|by apply Herr].
  destruct (L <=? ch).
  - destruct (callGetHeaderByHeight_Done L m2) as (r & m3 & -> & Ht3 & _).
    assert (E3 : trace m3 = trace m) by congruence.
    destruct r as [p|e]; [|by apply Herr].
    destruct (headersEqual (store m3) p la) as [[|]|].
    + destruct (IH L la m3) as (t & Ht & Hs). exists t. by rewrite Ht, E3.
    + destruct (sendHeader_cases fuel p m3)
        as [(m4 & -> & Ht4 & _)|(m4 & [-> | ->] & Ht4 & _)].
      * destruct (copyHeaders (store m4) la p) as [s|].
        -- destruct (IH (add64 L 1) la (mkMachine s (fwd m4) (world m4) (trace m4)))
             as (t & Ht & Hs).
           exists (EvEnqueue p (deref (store m3) p) :: t).
           split; [|by constructor].
           rewrite Ht. simpl. rewrite Ht4, E3. by rewrite <- app_assoc.
        -- exists [EvEnqueue p (deref (store m3) p)].
           split; [simpl; by rewrite Ht4, E3 | repeat constructor].
      * apply Hnil. simpl. congruence.
      * apply Hnil. simpl. congruence.
    + by apply Hnil.
  - destruct (sleepSelect_cases fuel forwarderPullingSleepTime m2)
      as [(c & m3 & -> & Ht3 & _)|(m3 & -> & Ht3 & _)].
    + destruct (IH L la m3) as (t & Ht & Hs).
      exists (EvSleep forwarderPullingSleepTime :: EvWake c :: t).
      split; [|by constructor].
      rewrite Ht, Ht3, E2. by rewrite <- app_assoc.
    + exists [EvSleep forwarderPullingSleepTime].
      split; [simpl; by rewrite Ht3, E2 | constructor].
Qed.

Lemma pullingLoop_shape fuel (m : Machine W) :
  exists t,
    trace (final (pullingLoop fuel m)) = trace m ++ t
    /\ puller_trace (is_done (pullingLoop fuel m)) t.
Proof.
  rewrite pullingLoop_unfold.
  pose proof (findBestBlock_trace fuel m) as Ht0.
  destruct (findBestBlock fuel m) as [[p|e] m1|m1|m1]; simpl in Ht0.
  - destruct (deref (store m1) p) as [h|].
    + set (m2 := mkMachine _ _ _ _).
      destruct (pullingLoop_for_shape fuel (add64 (Height h) 1)
                  (Some (length (hdrs (store m1)))) m2) as (t & Ht & Hs).
      exists t. split; [|done]. rewrite Ht. simpl. by rewrite Ht0.
    + exists []. rewrite app_nil_r. split; [done | constructor].
  - destruct (sendError_shape fuel (Errorf fmt_find_best_block e) m1)
      as (t & Ht & [[Et Ed]|[Et Ed]]);
      exists t; rewrite Ht, Ht0, Ed, Et; split; try done; constructor.
  - exists []. rewrite app_nil_r. split; [done | constructor].
  - exists []. rewrite app_nil_r. split; [done | constructor].
Qed.

Lemma puller_trace_last b t :
  puller_trace b t ->
  forall i ev, t !! i = Some ev ->
    match ev with EvReport _ | EvCancelled _ => True | _ => False end ->
    S i = length t /\ b = true.
Proof.
  induction 1 as [|c|e| |b p h t _ IH|b c t _ IH]; intros i ev Hi Hev.
  - done.
  - destruct i; [done|]. by destruct i.
  - destruct i; [done|]. by destruct i.
  - destruct i as [|i]; [injection Hi as <-; done|]. by destruct i.
  - destruct i as [|i]; [injection Hi as <-; done|].
    destruct (IH i ev Hi Hev) as [E ->]. simpl. by rewrite E.
  - destruct i as [|i]; [injection Hi as <-; done|].
    destruct i as [|i]; [injection Hi as <-; done|].
    destruct (IH i ev Hi Hev) as [E ->]. simpl. by rewrite E.
Qed.

(** X4: in any run of [pullingLoop], the report of an error or the
    taking of a cancellation is the last thing the loop does: it is the
    last of the events the run adds to the trace, so there is at most one
    of them, nothing is enqueued afterwards, and the loop has returned. *)
Theorem pullingLoop_ends_with_report fuel (m : Machine W) :
  exists t,
    trace (final (pullingLoop fuel m)) = trace m ++ t
    /\ forall i ev, t !! i = Some ev ->
         match ev with EvReport _ | EvCancelled _ => True | _ => False end ->
         S i = length t /\ pullingLoop fuel m = Done tt (final (pullingLoop fuel m)).
Proof.
  destruct (pullingLoop_shape fuel m) as (t & Ht & Hs).
  exists t. split; [done|]. intros i ev Hi Hev.
  destruct (puller_trace_last _ _ Hs i ev Hi Hev) as [E Hd].
  split; [done|]. by destruct (pullingLoop fuel m) as [[] ?|?|?].
Qed.

Lemma callGetBlockCount_below_tip (m m' : Machine W) c n :
  callGetBlockCount m = Done (Ok c) m' -> n <= c -> below_tip n.
Proof.
  unfold callGetBlockCount.
  destruct (GetBlockCount (world m)) as [r w'] eqn:E.
  intros [= -> <-] Hle. by exists (world m), c, w'.
Qed.

(** Every header the pulling loop enqueues is the node's answer to a
    request for a height that a block count of the node allowed. *)
Lemma pullingLoop_for_requests fuel :
  forall L la (m : Machine W),
  exists l,
    enqueued (trace (final (pullingLoop_for fuel L la m))) =
      enqueued (trace m) ++ l
    /\ Forall (fun h => exists n, below_tip n /\ served_by_node n h) l.
Proof.
  induction fuel as [|fuel IH]; intros L la m.
  { exists []. simpl. rewrite app_nil_r. split; [done | constructor]. }
  rewrite pullingLoop_for_unfold.
  assert (Hnil : forall r : Res W unit,
             enqueued (trace (final r)) = enqueued (trace m) ->
             exists l, enqueued (trace (final r)) = enqueued (trace m) ++ l
                       /\ Forall (fun h => exists n, below_tip n /\ served_by_node n h) l).
  { intros r Hr. exists []. rewrite app_nil_r. split; [done | constructor]. }
  assert (Herr : forall e (m' : Machine W), trace m' = trace m ->
             enqueued (trace (final (sendError fuel e m'))) = enqueued (trace m)).
  { intros e m' E.
    destruct (sendError_shape fuel e m') as (t & Ht & [[Et _]|[Et _]]);
      rewrite Ht, E, Et, enqueued_app; simpl; by rewrite app_nil_r. }
  destruct (selectCancel_cases m) as [(m1 & -> & Ht1 & _)|(c & m1 & -> & Ht1 & _)].
  2:{ apply Hnil. simpl. rewrite Ht1, enqueued_app. simpl. by rewrite app_nil_r. }
  destruct (callGetBlockCount_Done m1) as (r & m2 & Hcount & Ht2 & _).
  rewrite Hcount.
  assert (E2 : trace m2 = trace m) by congruence.
  destruct r as [ch|e]; [|by apply Hnil, Herr].
  destruct (Z.leb_spec L ch) as [Hle|Hgt].
  - destruct (callGetHeaderByHeight_Done L m2) as (r & m3 & Hcall & Ht3 & _).
    rewrite Hcall.
    assert (E3 : trace m3 = trace m) by congruence.
    destruct r as [p|e]; [|by apply Hnil, Herr].
    destruct (headersEqual (store m3) p la) as [[|]|] eqn:Heq.
    + destruct (IH L la m3) as (l & Hl & Hs). exists l. by rewrite Hl, E3.
    + destruct (headersEqual_Some_deref _ _ _ _ Heq) as [h Hh].
      pose proof (callGetHeaderByHeight_served _ _ _ _ _ Hcall Hh) as Hserved.
      pose proof (callGetBlockCount_below_tip _ _ _ _ Hcount Hle) as Htip.
      destruct (sendHeader_cases fuel p m3)
        as [(m4 & -> & Ht4 & Hs4)|(m4 & [-> | ->] & Ht4 & _)].
      * rewrite Hh in Ht4.
        destruct (copyHeaders (store m4) la p) as [s|].
        -- destruct (IH (add64 L 1) la (mkMachine s (fwd m4) (world m4) (trace m4)))
             as (l & Hl & Hs).
           exists (h :: l). split; [|constructor; eauto].
           rewrite Hl. simpl. rewrite Ht4, enqueued_app, E3. simpl.
           by rewrite <- app_assoc.
        -- exists [h]. split; [|repeat constructor; eauto].
           simpl. by rewrite Ht4, enqueued_app, E3.
      * apply Hnil. simpl. by rewrite Ht4, E3.
      * apply Hnil. simpl. by rewrite Ht4, E3.
    + apply Hnil. simpl. by rewrite E3.
  - destruct (sleepSelect_cases fuel forwarderPullingSleepTime m2)
      as [(c & m3 & -> & Ht3 & _)|(m3 & -> & Ht3 & _)].
    + destruct (IH L la m3) as (l & Hl & Hs).
      exists l. split; [|done].
      rewrite Hl, Ht3, enqueued_app, E2. simpl. by rewrite app_nil_r.
    + apply Hnil. simpl. rewrite Ht3, enqueued_app, E2. simpl.
      by rewrite app_nil_r.
Qed.

(** X7: [pullingLoop] never runs ahead of the tip.  When the node never
    reports a block count above [N] and answers a request for a height
    with a header of that height, no header of a height above [N] is
    enqueued. *)
Theorem pullingLoop_stays_below_tip fuel (m : Machine W) N :
  (forall (w : W) c w', GetBlockCount w = (Ok c, w') -> c <= N) ->
  (forall n s (w : W) p s' w',
      GetHeaderByHeight n s w = (Ok p, s', w') ->
      forall h, deref s' p = Some h -> Height h = n) ->
  exists l,
    enqueued (trace (final (pullingLoop fuel m))) = enqueued (trace m) ++ l
    /\ Forall (fun h => Height h <= N) l.
Proof.
  intros Hcount Hheight.
  assert (Hnil : forall r : Res W unit,
             enqueued (trace (final r)) = enqueued (trace m) ->
             exists l, enqueued (trace (final r)) = enqueued (trace m) ++ l
                       /\ Forall (fun h => Height h <= N) l).
  { intros r Hr. exists []. rewrite app_nil_r. split; [done | constructor]. }
  rewrite pullingLoop_unfold.
  pose proof (findBestBlock_trace fuel m) as Ht0.
  destruct (findBestBlock fuel m) as [[p|e] m1|m1|m1]; simpl in Ht0.
  - destruct (deref (store m1) p) as [h|]; [|apply Hnil; simpl; congruence].
    set (m2 := mkMachine _ _ _ _).
    destruct (pullingLoop_for_requests fuel (add64 (Height h) 1)
                (Some (length (hdrs (store m1)))) m2) as (l & Hl & Hs).
    exists l. split; [rewrite Hl; simpl; by rewrite Ht0|].
    eapply Forall_impl; [exact Hs|].
    intros x (n & (w & c & w' & Hc & Hle) & (s & w0 & q & s' & w0' & Hcall & Hd)).
    rewrite (Hheight _ _ _ _ _ _ Hcall _ Hd).
    specialize (Hcount _ _ _ Hc). lia.
  - apply Hnil.
    destruct (sendError_shape fuel (Errorf fmt_find_best_block e) m1)
      as (t & Ht & [[Et _]|[Et _]]);
      rewrite Ht, Ht0, Et, enqueued_app; simpl; by rewrite app_nil_r.
  - apply Hnil. simpl. congruence.
  - apply Hnil. simpl. congruence.
Qed.

Section PusherShape.
(** The two methods that live in other files add no event of their own
    to the trace. *)
Hypothesis pull_silent :
  forall fuel (m : Machine W),
    trace (final (pullHeadersFromQueue fuel m)) = trace m.
Hypothesis push_silent :
  forall fuel hs (m : Machine W),
    trace (final (pushHeadersToHostChain fuel hs m)) = trace m.

Lemma pushingLoop_shape fuel :
  forall (m : Machine W),
  exists t,
    trace (final (pushingLoop fuel m)) = trace m ++ t
    /\ pusher_trace (is_done (pushingLoop fuel m)) t.
Proof.
  induction fuel as [|fuel IH]; intros m.
  { exists []. simpl. rewrite app_nil_r. split; [done | constructor]. }
  rewrite pushingLoop_unfold.
  destruct (selectCancel_cases m) as [(m1 & -> & Ht1 & _)|(c & m1 & -> & Ht1 & _)].
  2:{ exists [EvCancelled c]. split; [done | constructor]. }
  pose proof (pull_silent fuel m1) as Ht2.
  destruct (pullHeadersFromQueue fuel m1) as [hs m2|m2|m2]; simpl in Ht2.
  2,3: exists []; rewrite app_nil_r; split; [simpl; congruence | constructor].
  destruct (length hs =? 0)%nat eqn:Hlen.
  { destruct (IH m2) as (t & Ht & Hs). exists t. split; [|done].
    rewrite Ht. congruence. }
  assert (Hne : hs <> []) by (intros ->; discriminate).
  pose proof (push_silent fuel hs (log (EvPush hs) m2)) as Ht3.
  simpl in Ht3. rewrite Ht2, Ht1 in Ht3.
  destruct (pushHeadersToHostChain fuel hs (log (EvPush hs) m2))
    as [[e|] m3|m3|m3]; simpl in Ht3.
  - destruct (sendError_shape fuel (Errorf fmt_push_headers e) m3)
      as (t & Ht & [[Et Ed]|[Et Ed]]); rewrite Ed, Ht, Ht3, Et.
    + exists [EvPush hs; EvReport (Errorf fmt_push_headers e)].
      split; [by rewrite <- app_assoc | by constructor].
    + exists [EvPush hs]. split; [by rewrite app_nil_r | by constructor].
  - destruct (sleepSelect_cases fuel forwarderPushingSleepTime m3)
      as [(c & m4 & -> & Ht4 & _)|(m4 & -> & Ht4 & _)].
    + destruct (IH m4) as (t & Ht & Hs).
      exists (EvPush hs :: EvSleep forwarderPushingSleepTime :: EvWake c :: t).
      split; [|by constructor].
      rewrite Ht, Ht4, Ht3. by rewrite <- !app_assoc.
    + exists [EvPush hs; EvSleep forwarderPushingSleepTime].
      split; [|by constructor]. simpl. rewrite Ht4, Ht3. by rewrite <- app_assoc.
  - exists [EvPush hs]. split; [done | by constructor].
  - exists [EvPush hs]. split; [done | by constructor].
Qed.

Lemma pusher_trace_push b t :
  pusher_trace b t ->
  forall i hs, t !! i = Some (EvPush hs) ->
    hs <> [] /\
    forall ev, t !! S i = Some ev ->
      ev = EvSleep forwarderPushingSleepTime \/ exists e, ev = EvReport e.
Proof.
  induction 1 as [|c|hs0 Hne|hs0 e Hne|hs0 Hne|b hs0 c t Hne _ IH]; intros i hs Hi.
  - done.
  - destruct i; [done|]. by destruct i.
  - destruct i as [|i]; [|by destruct i]. injection Hi as <-. by split.
  - destruct i as [|i].
    + injection Hi as <-. split; [done|]. intros ev [= <-]. eauto.
    + destruct i as [|i]; [done|]. by destruct i.
  - destruct i as [|i].
    + injection Hi as <-. split; [done|]. intros ev [= <-]. eauto.
    + destruct i as [|i]; [done|]. by destruct i.
  - destruct i as [|i].
    + injection Hi as <-. split; [done|]. intros ev [= <-]. eauto.
    + destruct i as [|i]; [done|]. destruct i as [|i]; [done|].
      apply (IH i hs Hi).
Qed.

Lemma pusher_trace_last b t :
  pusher_trace b t ->
  forall i ev, t !! i = Some ev ->
    match ev with EvReport _ | EvCancelled _ => True | _ => False end ->
    S i = length t /\ b = true.
Proof.
  induction 1 as [|c|hs0 Hne|hs0 e Hne|hs0 Hne|b hs0 c t Hne _ IH]; intros i ev Hi Hev.
  - done.
  - destruct i; [done|]. by destruct i.
  - destruct i as [|i]; [injection Hi as <-; done|]. by destruct i.
  - destruct i as [|i]; [injection Hi as <-; done|].
    destruct i as [|i]; [done|]. by destruct i.
  - destruct i as [|i]; [injection Hi as <-; done|].
    destruct i as [|i]; [injection Hi as <-; done|]. by destruct i.
  - destruct i as [|i]; [injection Hi as <-; done|].
    destruct i as [|i]; [injection Hi as <-; done|].
    destruct i as [|i]; [injection Hi as <-; done|].
    destruct (IH i ev Hi Hev) as [E ->]. simpl. by rewrite E.
Qed.

(** X5: [pushingLoop] never submits an empty batch: every call of
    [pushHeadersToHostChain] in a run carries at least one header. *)
Theorem pushingLoop_never_submits_empty fuel (m : Machine W) :
  exists t,
    trace (final (pushingLoop fuel m)) = trace m ++ t
    /\ forall hs, EvPush hs ∈ t -> hs <> [].
Proof.
  destruct (pushingLoop_shape fuel m) as (t & Ht & Hs).
  exists t. split; [done|]. intros hs Hin.
  apply list_elem_of_lookup in Hin as [i Hi].
  by destruct (pusher_trace_push _ _ Hs i hs Hi).
Qed.

End PusherShape.
End LoopShape.

(** ** What a value sent on the quit channel does *)

Section QuitChannel.
Context {W : Type}.
Context {btcChain : BtcHandle W} {hostChain : ChainHandle W}.
Context {rt : Runtime W} {helpers : Helpers W}.

Lemma choose_only_quit (m : Machine W) :
  choose [SelQuit] m =
    Some (SelQuit, take_case SelQuit (set_world (pick 1 (world m)).2 m)).
Proof.
  unfold choose. simpl length.
  destruct (pick 1 (world m)) as [k w]. simpl. reflexivity.
Qed.

Lemma selectCancel_one_quit_value (m : Machine W) v :
  ctxDone (world (yield m)) = false ->
  QuitChan (fwd (yield m)) = mkChan 1 [v] false ->
  exists m1,
    selectCancel m = Done (Some SelQuit) m1
    /\ QuitChan (fwd m1) = mkChan 1 [] false
    /\ trace m1 = trace m ++ [EvCancelled SelQuit].
Proof.
  unfold QuitChan. intros Hctx Hq. unfold selectCancel, ready_cases.
  rewrite Hctx, Hq. simpl app.
  rewrite choose_only_quit.
  eexists. split; [reflexivity|]. simpl. rewrite Hq. simpl.
  by rewrite yield_trace.
Qed.

Lemma selectCancel_nothing_ready (m : Machine W) :
  ctxDone (world (yield m)) = false ->
  QuitChan (fwd (yield m)) = mkChan 1 [] false ->
  selectCancel m = Done None (yield m).
Proof.
  unfold QuitChan. intros Hctx Hq. unfold selectCancel, ready_cases.
  by rewrite Hctx, Hq.
Qed.

(** X10: one value sent on the quit channel stops one loop, not both.
    With the context not done and exactly one value in the channel, the
    loop that comes to its select first returns and takes the value with
    it; the other loop, unless the context is done or a further value is
    sent in the meantime, finds nothing at its select and goes on. *)
Theorem quit_value_stops_one_loop fuel (m : Machine W) v :
  ctxDone (world (yield m)) = false ->
  QuitChan (fwd (yield m)) = mkChan 1 [v] false ->
  exists m1,
    (forall L la, pullingLoop_for (S fuel) L la m = Done tt m1)
    /\ pushingLoop (S fuel) m = Done tt m1
    /\ QuitChan (fwd m1) = mkChan 1 [] false
    /\ (ctxDone (world (yield m1)) = false ->
        QuitChan (fwd (yield m1)) = QuitChan (fwd m1) ->
        selectCancel m1 = Done None (yield m1)).
Proof.
  intros Hctx Hq.
  destruct (selectCancel_one_quit_value m v Hctx Hq) as (m1 & Hsel & Hq1 & _).
  exists m1. split; [|split; [|split]].
  - intros L la. by rewrite pullingLoop_for_unfold, Hsel.
  - by rewrite pushingLoop_unfold, Hsel.
  - done.
  - intros Hctx1 Hsame. apply selectCancel_nothing_ready; [done|congruence].
Qed.

Lemma blocking_first_attempt {A : Type} fuel
    (attempt : Machine W -> option (Res W A)) (m : Machine W) r :
  attempt (yield m) = Some r -> blocking fuel attempt m = r.
Proof. intros H. destruct fuel; simpl; by rewrite H. Qed.

(** X11: a quit value that arrives while a loop sleeps wakes the loop
    but does not stop it.  The sleeping select takes the value, its case
    has an empty body, and the select at the top of the next iteration
    finds the channel empty: unless the context is done or a further
    value is sent, the loop goes on. *)
Theorem quit_value_during_sleep_is_lost fuel d (m : Machine W) v :
  let m0 := yield (log (EvSleep d) m) in
  ctxDone (world m0) = false ->
  timerFired d (world m0) = false ->
  QuitChan (fwd m0) = mkChan 1 [v] false ->
  exists m1,
    sleepSelect fuel d m = Done tt m1
    /\ trace m1 = trace m ++ [EvSleep d; EvWake SelQuit]
    /\ QuitChan (fwd m1) = mkChan 1 [] false
    /\ (ctxDone (world (yield m1)) = false ->
        QuitChan (fwd (yield m1)) = QuitChan (fwd m1) ->
        selectCancel m1 = Done None (yield m1)).
Proof.
  intros m0 Hctx Htimer Hq. unfold QuitChan in Hq.
  assert (Hwake : tryWake d m0 =
            Some (Done tt (log (EvWake SelQuit)
                             (take_case SelQuit
                                (set_world (pick 1 (world m0)).2 m0))))).
  { unfold tryWake, ready_cases. rewrite Hctx, Htimer, Hq. simpl app.
    by rewrite choose_only_quit. }
  eexists. split; [|split; [|split]].
  - unfold sleepSelect. apply blocking_first_attempt. exact Hwake.
  - simpl. subst m0. rewrite yield_trace. simpl. by rewrite <- app_assoc.
  - unfold QuitChan. simpl. by rewrite Hq.
  - intros Hctx1 Hsame. apply selectCancel_nothing_ready; [done|].
    rewrite Hsame. unfold QuitChan. simpl. by rewrite Hq.
Qed.
End QuitChannel.

(** ** The string forms *)

Lemma hextable_NoDup : NoDup hextable.
Proof. by apply (bool_decide_unpack _). Qed.

Lemma hex_digit_inj a b :
  (a < 16)%N -> (b < 16)%N -> hex_digit a = hex_digit b -> a = b.
Proof.
  intros Ha Hb E. unfold hex_digit in E.
  apply N2Nat.inj.
  apply (proj1 (List.NoDup_nth hextable Ascii.zero)) in E; try done.
  - apply NoDup_ListNoDup, hextable_NoDup.
  - change (length hextable) with 16%nat. lia.
  - change (length hextable) with 16%nat. lia.
Qed.

Lemma hex_digit_in n : (n < 16)%N -> hex_digit n ∈ hextable.
Proof.
  intros Hn. unfold hex_digit. apply list_elem_of_In, nth_In.
  change (length hextable) with 16%nat. lia.
Qed.

Lemma byte_nibbles (v : byte) :
  (Byte.to_N v / 16 < 16)%N /\ (Byte.to_N v mod 16 < 16)%N.
Proof.
  pose proof (Byte.to_N_bounded v). split.
  - apply N.Div0.div_lt_upper_bound. lia.
  - apply N.mod_lt. lia.
Qed.

Lemma byte_of_nibbles (v w : byte) :
  (Byte.to_N v / 16 = Byte.to_N w / 16)%N ->
  (Byte.to_N v mod 16 = Byte.to_N w mod 16)%N -> v = w.
Proof.
  intros Hd Hm. apply to_N_inj.
  rewrite (N.div_mod (Byte.to_N v) 16), (N.div_mod (Byte.to_N w) 16) by lia.
  by rewrite Hd, Hm.
Qed.

Lemma hex_encode_inj (a b : list byte) : hex_encode a = hex_encode b -> a = b.
Proof.
  revert b. induction a as [|v a IH]; intros [|w b]; simpl; try done.
  intros [= Hhi Hlo Hrest].
  destruct (byte_nibbles v) as [? ?], (byte_nibbles w) as [? ?].
  apply hex_digit_inj in Hhi; try done.
  apply hex_digit_inj in Hlo; try done.
  f_equal; [by apply byte_of_nibbles | by apply IH].
Qed.

Lemma hex_encode_length (a : list byte) :
  length (hex_encode a) = (2 * length a)%nat.
Proof. induction a as [|v a IH]; simpl; [done|]. rewrite IH. lia. Qed.

Lemma hex_encode_chars (a : list byte) : Forall (fun c => c ∈ hextable) (hex_encode a).
Proof.
  induction a as [|v a IH]; simpl; [constructor|].
  destruct (byte_nibbles v) as [? ?].
  constructor; [by apply hex_digit_in|].
  constructor; [by apply hex_digit_in | exact IH].
Qed.

Lemma string_of_list_ascii_inj (a b : list Ascii.ascii) :
  String.string_of_list_ascii a = String.string_of_list_ascii b -> a = b.
Proof.
  intros E.
  rewrite <- (String.list_ascii_of_string_of_list_ascii a),
          <- (String.list_ascii_of_string_of_list_ascii b).
  by rewrite E.
Qed.

(** X12: [Digest.String] gives two characters for each byte, all of
    them lowercase hexadecimal digits, and different digests have
    different strings. *)
Theorem Digest_String_faithful (d d' : Digest) :
  String.length (Digest_String d) = (2 * length d)%nat
  /\ Forall (fun c => c ∈ hextable) (String.list_ascii_of_string (Digest_String d))
  /\ (Digest_String d = Digest_String d' -> d = d').
Proof.
  unfold Digest_String, EncodeToString. split; [|split].
  - rewrite <- (hex_encode_length d).
    generalize (hex_encode d). intros l.
    induction l as [|c l IH]; simpl; [done | by rewrite IH].
  - rewrite String.list_ascii_of_string_of_list_ascii. apply hex_encode_chars.
  - intros E. by apply hex_encode_inj, string_of_list_ascii_inj.
Qed.

Example Digest_String_of_block_100 :
  Digest_String (digest_of Byte.x0a 100) =
    "0a64000000000000000000000000000000000000000000000000000000000000"%string.
Proof. vm_compute. reflexivity. Qed.

Lemma string_of_uint_no_comma d :
  comma ∉ String.list_ascii_of_string (DecimalString.NilEmpty.string_of_uint d).
Proof.
  induction d; simpl; try (apply not_elem_of_nil);
    (apply not_elem_of_cons; split; [discriminate | exact IHd]).
Qed.

Lemma format_d_no_comma z : comma ∉ format_d z.
Proof.
  unfold format_d. destruct (Z.to_int z) as [d|d]; simpl.
  - apply string_of_uint_no_comma.
  - apply not_elem_of_cons. split; [discriminate | apply string_of_uint_no_comma].
Qed.

Lemma list_ascii_of_string_inj (a b : string) :
  String.list_ascii_of_string a = String.list_ascii_of_string b -> a = b.
Proof.
  intros E.
  rewrite <- (String.string_of_list_ascii_of_string a),
          <- (String.string_of_list_ascii_of_string b).
  by rewrite E.
Qed.

Lemma format_d_inj z z' : format_d z = format_d z' -> z = z'.
Proof.
  unfold format_d. intros E. apply list_ascii_of_string_inj in E.
  assert (H : Some (Z.to_int z) = Some (Z.to_int z')).
  { rewrite <- !DecimalString.NilEmpty.isi. by rewrite E. }
  injection H as H.
  rewrite <- (DecimalZ.of_to z), <- (DecimalZ.of_to z'). by rewrite H.
Qed.

Lemma split_at_separator {A : Type} (c : A) (l1 l2 r1 r2 : list A) :
  c ∉ l1 -> c ∉ l2 -> l1 ++ c :: r1 = l2 ++ c :: r2 -> l1 = l2 /\ r1 = r2.
Proof.
  revert l2. induction l1 as [|x l1 IH]; intros [|y l2] H1 H2 E; simpl in E.
  - by injection E.
  - injection E as <- _. exfalso. apply H2. by left.
  - injection E as -> _. exfalso. apply H1. by left.
  - injection E as <- E.
    apply not_elem_of_cons in H1 as [_ H1], H2 as [_ H2].
    destruct (IH l2 H1 H2 E) as [-> ->]. done.
Qed.

Lemma fields_inj {A : Type} (c : A) (p1 p2 p3 p4 p5 : list A)
    H1 H2 D1 D2 P1 P2 M1 M2 R1 R2 :
  length H1 = length H2 -> length P1 = length P2 -> length M1 = length M2 ->
  c ∉ D1 -> c ∉ D2 ->
  p1 ++ H1 ++ p2 ++ D1 ++ (c :: p3) ++ P1 ++ p4 ++ M1 ++ p5 ++ R1 =
  p1 ++ H2 ++ p2 ++ D2 ++ (c :: p3) ++ P2 ++ p4 ++ M2 ++ p5 ++ R2 ->
  H1 = H2 /\ D1 = D2 /\ P1 = P2 /\ M1 = M2 /\ R1 = R2.
Proof.
  intros LH LP LM HD1 HD2 E.
  apply app_inv_head in E.
  apply app_inj_1 in E as [-> E]; [|done].
  apply app_inv_head in E.
  rewrite <- !(app_comm_cons p3) in E.
  apply split_at_separator in E as [-> E]; [|done|done].
  apply app_inv_head in E.
  apply app_inj_1 in E as [-> E]; [|done].
  apply app_inv_head in E.
  apply app_inj_1 in E as [-> E]; [|done].
  apply app_inv_head in E. by subst.
Qed.

Lemma format_Header_inj (f g : Header) (a b : list byte) :
  digests_32 f -> digests_32 g ->
  format_Header f a = format_Header g b ->
  four_fields_eq f g /\ a = b.
Proof.
  intros (Lf1 & Lf2 & Lf3) (Lg1 & Lg2 & Lg3) E.
  apply (fields_inj comma
           (String.list_ascii_of_string "Hash: ")
           (String.list_ascii_of_string ", Height: ")
           (String.list_ascii_of_string " PrevHash: ")
           (String.list_ascii_of_string ", MerkleRoot: ")
           (String.list_ascii_of_string ", Raw: ")
           (hex_encode (Hash f)) (hex_encode (Hash g))
           (format_d (Height f)) (format_d (Height g))
           (hex_encode (PrevHash f)) (hex_encode (PrevHash g))
           (hex_encode (MerkleRoot f)) (hex_encode (MerkleRoot g))
           (hex_encode a) (hex_encode b)) in E;
    try (rewrite !hex_encode_length; lia); try apply format_d_no_comma.
  destruct E as (EH & EZ & EP & EM & ER).
  apply hex_encode_inj in EH, EP, EM, ER. apply format_d_inj in EZ.
  by unfold four_fields_eq.
Qed.

Lemma Header_String_Some s p f a :
  deref s p = Some f -> slice_bytes s (Raw f) = Some a ->
  Header_String s p = Some (String.string_of_list_ascii (format_Header f a)).
Proof. intros Hp Ha. unfold Header_String. by rewrite Hp; simpl; rewrite Ha. Qed.

(** X13: [Header.String] is a faithful rendering of a header: two
    headers have the same string exactly when [headersEqual] holds them
    equal, all five fields with [Raw] byte for byte. *)
Theorem Header_String_iff_headersEqual s p q f g a b :
  deref s p = Some f -> deref s q = Some g ->
  slice_bytes s (Raw f) = Some a -> slice_bytes s (Raw g) = Some b ->
  digests_32 f -> digests_32 g ->
  (Header_String s p = Header_String s q <-> headersEqual s p q = Some true).
Proof.
  intros Hp Hq Ha Hb Lf Lg.
  rewrite (headersEqual_true_iff s p q f g a b Hp Hq Ha Hb).
  rewrite (Header_String_Some s p f a Hp Ha), (Header_String_Some s q g b Hq Hb).
  split.
  - intros E. apply (inj Some) in E. apply string_of_list_ascii_inj in E.
    exact (format_Header_inj f g a b Lf Lg E).
  - intros [(E1 & E2 & E3 & E4) ->]. unfold format_Header.
    by rewrite E1, E2, E3, E4.
Qed.

(** ** Properties of the contract [TBTCSystem] *)

Section SystemProperties.
Import TBTCSystem.
Context {Ownable : Type} (isOwner : Ownable -> address -> bool).

Lemma step_parameters_valid st tx :
  parameters_valid Ownable st -> parameters_valid Ownable (step Ownable isOwner st tx).
Proof.
  intros [Hfee Hth]. destruct tx as [sender c]. unfold step, exec. simpl.
  destruct c as [k|b|d|u s|o]; simpl;
    unfold initialize, setAllowNewDeposits, setSignerFeeDivisor,
      setCollateralizationThresholds, onlyOwner;
    destruct (isOwner (ownable Ownable st) sender); try (by split).
  - destruct (negb (_initialized Ownable st)); by split.
  - destruct (Z.ltb_spec 1 d); by split.
  - destruct (Z.ltb_spec s u); by split.
Qed.

Lemma run_invariant (P : State Ownable -> Prop) :
  (forall st tx, P st -> P (step Ownable isOwner st tx)) ->
  forall txs st, P st -> P (run Ownable isOwner txs st).
Proof.
  intros Hstep txs. unfold run.
  induction txs as [|tx txs IH]; intros st HP; simpl; [done|].
  apply IH, Hstep, HP.
Qed.

(** X14: whatever transactions the deployed contract receives, from
    whomever, the signer fee divisor stays above 1 and the
    undercollateralized threshold stays above the severely
    undercollateralized one. *)
Theorem TBTCSystem_parameters_stay_valid o _priceFeed _relay txs :
  let st := run Ownable isOwner txs (constructor Ownable o _priceFeed _relay) in
  1 < getSignerFeeDivisor Ownable st /\
  getSeverelyUndercollateralizedThresholdPercent Ownable st
    < getUndercollateralizedThresholdPercent Ownable st.
Proof.
  apply (run_invariant (parameters_valid Ownable)).
  - apply step_parameters_valid.
  - split; reflexivity.
Qed.

Lemma step_initialized k st tx :
  initialized_with Ownable k st -> initialized_with Ownable k (step Ownable isOwner st tx).
Proof.
  intros [Hi Hk]. destruct tx as [sender c]. unfold step, exec. simpl.
  destruct c as [k'|b|d|u s|o]; simpl;
    unfold initialize, setAllowNewDeposits, setSignerFeeDivisor,
      setCollateralizationThresholds, onlyOwner;
    destruct (isOwner (ownable Ownable st) sender); try (by split).
  - rewrite Hi. by split.
  - destruct (1 <? d); by split.
  - destruct (s <? u); by split.
Qed.

(** X15: the contract is initialized once.  Once [initialize] has gone
    through, no transaction changes the keep registry, and every further
    call of [initialize] reverts, the owner's too. *)
Theorem TBTCSystem_initialized_once st txs sender k :
  _initialized Ownable st = true ->
  let st' := run Ownable isOwner txs st in
  _initialized Ownable st' = true
  /\ keepRegistry Ownable st' = keepRegistry Ownable st
  /\ exists r, initialize Ownable isOwner sender k st' = inr r.
Proof.
  intros Hi st'.
  assert (H : initialized_with Ownable (keepRegistry Ownable st) st').
  { apply (run_invariant (initialized_with Ownable (keepRegistry Ownable st))).
    - apply step_initialized.
    - by split. }
  destruct H as [Hi' Hk']. split; [done|]. split; [done|].
  unfold initialize, onlyOwner. rewrite Hi'. simpl.
  destruct (isOwner (ownable Ownable st') sender); eauto.
Qed.

(** X16: only an owner writes the parameters: a sequence of calls of
    the contract's own functions, none of them sent by an owner, leaves
    the storage as it was. *)
Theorem TBTCSystem_only_owner_writes st txs :
  Forall (fun tx => isOwner (ownable Ownable st) tx.1 = false
                    /\ own_function Ownable tx.2) txs ->
  run Ownable isOwner txs st = st.
Proof.
  unfold run. induction 1 as [|[sender c] txs [Hno Hown] _ IH]; simpl; [done|].
  assert (E : step Ownable isOwner st (sender, c) = st).
  { unfold step, exec. simpl in *.
    destruct c as [k|b|d|u s|o]; simpl; try done;
      unfold initialize, setAllowNewDeposits, setSignerFeeDivisor,
        setCollateralizationThresholds, onlyOwner; by rewrite Hno. }
  by rewrite E.
Qed.
End SystemProperties.

Lemma TBTCSystem_initialized_once_witness :
  let st' := TBTCSystem.run TBTCSystem.address single_owner owner_txs
               initialized_system in
  TBTCSystem._initialized TBTCSystem.address st' = true
  /\ TBTCSystem.keepRegistry TBTCSystem.address st' =
       TBTCSystem.keepRegistry TBTCSystem.address initialized_system
  /\ exists r,
       TBTCSystem.initialize TBTCSystem.address single_owner 1 14 st' = inr r.
Proof.
  apply (TBTCSystem_initialized_once single_owner initialized_system owner_txs).
  reflexivity.
Defined.

Lemma TBTCSystem_only_owner_writes_witness :
  TBTCSystem.run TBTCSystem.address single_owner stranger_txs initialized_system
    = initialized_system.
Proof.
  apply (TBTCSystem_only_owner_writes single_owner initialized_system).
  repeat constructor.
Defined.

(** The owner's transactions of the example: the divisor 50 and the
    thresholds 150 and 110 are taken, the second initialization and the
    divisor 1 revert. *)
Example owner_txs_outcome :
  let st := TBTCSystem.run TBTCSystem.address single_owner owner_txs
              initialized_system in
  TBTCSystem.getSignerFeeDivisor _ st = 50
  /\ TBTCSystem.getUndercollateralizedThresholdPercent _ st = 150
  /\ TBTCSystem.getSeverelyUndercollateralizedThresholdPercent _ st = 110
  /\ TBTCSystem.keepRegistry _ st = 12.
Proof. repeat split. Qed.

(** ** The further properties at work on the scripted collaborators *)

Lemma scripted_pull_silent sc fuel (m : Machine nat) :
  trace (final (pullHeadersFromQueue (Helpers := scripted_helpers sc) fuel m))
    = trace m.
Proof. reflexivity. Qed.

Lemma scripted_push_silent sc fuel hs (m : Machine nat) :
  trace (final (pushHeadersToHostChain (Helpers := scripted_helpers sc) fuel hs m))
    = trace m.
Proof. reflexivity. Qed.

Section PushingRuns.
#[local] Existing Instances pushing_btc pushing_host pushing_rt pushing_helpers.

Lemma pushingLoop_never_submits_empty_witness :
  exists t,
    trace (final (pushingLoop 4 pushing_machine)) = trace pushing_machine ++ t
    /\ forall hs, EvPush hs ∈ t -> hs <> [].
Proof.
  apply (pushingLoop_never_submits_empty
           (scripted_pull_silent pushing_script)
           (scripted_push_silent pushing_script) 4 pushing_machine).
Defined.


(** Two rounds of the pushing loop of this example. *)
Example pushing_rounds :
  trace (final (pushingLoop 2 pushing_machine)) =
    [EvPush [Some 0%nat]; EvSleep 45; EvWake SelTimer;
     EvPush [Some 0%nat]; EvSleep 45; EvWake SelTimer].
Proof. vm_compute. reflexivity. Qed.
End PushingRuns.

Section SteadyBounds.
#[local] Existing Instances steady_btc steady_host steady_rt steady_helpers.

Lemma pullingLoop_stays_below_tip_witness :
  exists l,
    enqueued (trace (final (pullingLoop 6 start_machine))) =
      enqueued (trace start_machine) ++ l
    /\ Forall (fun h => Height h <= 102) l.
Proof.
  apply (pullingLoop_stays_below_tip 6 start_machine 102).
  - intros w c w'. simpl. intros [= <- _]. lia.
  - intros n s w p s' w' Hcall h Hh.
    by destruct (steady_node_serves n s w p s' w' h Hcall Hh).
Defined.

Lemma quit_value_stops_one_loop_witness :
  exists m1,
    (forall L la, pullingLoop_for 3 L la quit_sent_machine = Done tt m1)
    /\ pushingLoop 3 quit_sent_machine = Done tt m1
    /\ QuitChan (fwd m1) = mkChan 1 [] false
    /\ (ctxDone (world (yield m1)) = false ->
        QuitChan (fwd (yield m1)) = QuitChan (fwd m1) ->
        selectCancel m1 = Done None (yield m1)).
Proof.
  apply (quit_value_stops_one_loop 2 quit_sent_machine true); reflexivity.
Defined.
End SteadyBounds.

Section SleepingRuns.
#[local] Existing Instances sleeping_btc sleeping_host sleeping_rt sleeping_helpers.

Lemma quit_value_during_sleep_is_lost_witness :
  exists m1,
    sleepSelect 3 forwarderPullingSleepTime quit_sent_machine = Done tt m1
    /\ trace m1 = trace quit_sent_machine
                    ++ [EvSleep forwarderPullingSleepTime; EvWake SelQuit]
    /\ QuitChan (fwd m1) = mkChan 1 [] false
    /\ (ctxDone (world (yield m1)) = false ->
        QuitChan (fwd (yield m1)) = QuitChan (fwd m1) ->
        selectCancel m1 = Done None (yield m1)).
Proof.
  apply (quit_value_during_sleep_is_lost 3 forwarderPullingSleepTime
           quit_sent_machine true); reflexivity.
Defined.
End SleepingRuns.

Section StaleResults.
#[local] Existing Instances stale_btc stale_host stale_rt stale_helpers.

Lemma findBestBlock_returns_canonical_witness :
  exists canonical m0 b0,
    deref (store m0) (Some 2%nat) = Some b0
    /\ GetHeaderByHeight (Height b0) (store m0) (world m0)
         = (Ok canonical, store (final (findBestBlock 1 start_machine)),
            world (final (findBestBlock 1 start_machine)))
    /\ headersEqual (store (final (findBestBlock 1 start_machine)))
         (Some 2%nat) canonical = Some true.
Proof.
  apply (findBestBlock_returns_canonical 1 start_machine).
  vm_compute. reflexivity.
Defined.
End StaleResults.

Lemma header_a7_digests b : digests_32 (header_a7 b).
Proof. repeat split. Qed.

Lemma Header_String_iff_headersEqual_witness :
  Header_String store_two_copies (Some 0%nat) =
    Header_String store_two_copies (Some 1%nat)
  <-> headersEqual store_two_copies (Some 0%nat) (Some 1%nat) = Some true.
Proof.
  apply (Header_String_iff_headersEqual store_two_copies (Some 0%nat) (Some 1%nat)
           (header_a7 0) (header_a7 1) [Byte.x01; Byte.x02] [Byte.x01; Byte.x02]);
    try reflexivity; apply header_a7_digests.
Defined.

(** The string of the header of this example. *)
Example Header_String_of_block_7 :
  Header_String store_one_header (Some 0%nat) =
    Some ("Hash: 0a07000000000000000000000000000000000000000000000000000000000000, "
          ++ "Height: 7, "
          ++ "PrevHash: 0a06000000000000000000000000000000000000000000000000000000000000, "
          ++ "MerkleRoot: 0000000000000000000000000000000000000000000000000000000000000000, "
          ++ "Raw: 0102")%string.
Proof. vm_compute. reflexivity. Qed.
